(** * Spacy-BIST parser: tag normalisation, tabular conversion and
      conjunction-relation resolution

    A shallow embedding of [nlp_architect/pipelines/spacy_bist/parser.py]
    and the properties of its three pieces of original logic:
    [spacy_pos_to_ptb], [SpacyBISTParser.to_conll] and
    [SpacyBISTParser.parse]. *)

From Stdlib Require Import Ascii String DecimalString ZArith.
From stdpp Require Import base numbers strings list gmap sets.

Local Open Scope Z_scope.
Local Open Scope string_scope.
Local Open Scope list_scope.

(** ** Python values

    A Python [str] is a [string]: the sequence of its characters, each a code
    point below 256.  [len] is [String.length], [==] is [String.eqb]. *)

Module Py.

(** The dynamically typed values that reach [parse] and [to_conll] and that
    are stored in a token record.  [PyStr] stands for an instance of [str]
    (or of a subclass of it), [PyBool] for the two objects of type [bool],
    [PyOther] for an object of any other class, named by its type. *)
Inductive pyval : Type :=
| PyNone
| PyBool (b : bool)
| PyInt (z : Z)
| PyStr (s : string)
| PyOther (type_name : string).

#[global] Instance pyval_eq_dec : EqDecision pyval.
Proof. solve_decision. Defined.

(** [isinstance(v, str)] *)
Definition isinstance_str (v : pyval) : bool :=
  match v with PyStr _ => true | _ => false end.

(** [type(v) is bool] *)
Definition type_is_bool (v : pyval) : bool :=
  match v with PyBool _ => true | _ => false end.

(** [x in l] for a list of strings: some element compares equal. *)
Definition str_in (x : string) (l : list string) : bool :=
  existsb (String.eqb x) l.

(** [str.lower] on one character: the upper-case letters below code point
    256 are A..Z, U+00C0..U+00D6 and U+00D8..U+00DE, each 32 below its
    lower-case form. *)
Definition lower_char (c : ascii) : ascii :=
  let n := Ascii.N_of_ascii c in
  if ((65 <=? n) && (n <=? 90) || (192 <=? n) && (n <=? 214)
      || (216 <=? n) && (n <=? 222))%N
  then Ascii.ascii_of_N (n + 32)
  else c.

(** [s.lower()] *)
Fixpoint lower (s : string) : string :=
  match s with
  | EmptyString => EmptyString
  | String c r => String (lower_char c) (lower r)
  end.

(** [str(n)] for a non-negative integer; a leading minus sign otherwise. *)
Definition str_of_int (z : Z) : string :=
  DecimalString.NilZero.string_of_int (Z.to_int z).

End Py.
Import Py.

(** ** Tag normaliser *)

(** [spacy_pos_to_ptb(pos, text)]: the [if]/[elif] chain of the source, in
    the source's order. *)
Definition spacy_pos_to_ptb (pos text : string) : string :=
  let norm_pos := pos in
  if text =? "..." then ":"
  else if text =? "*" then "SYM"
  else if pos =? "AFX" then "JJ"
  else if pos =? "ADD" then "NN"
  else if negb (text =? pos)
          && str_in text [","; "."; ":"; "``"; "-RRB-"; "-LRB-"] then text
  else if str_in pos ["NFP"; "HYPH"; "XX"] then "SYM"
  else norm_pos.

(** The rule table of the specification, one constructor per rule; every
    rule carries the failure of the rules above it. *)
Definition punct_forms : list string := [","; "."; ":"; "``"; "-RRB-"; "-LRB-"].
Definition symbol_tags : list string := ["NFP"; "HYPH"; "XX"].

Inductive ptb_rule (tag text : string) : string → Prop :=
| rule_ellipsis :
    text = "..." → ptb_rule tag text ":"
| rule_star :
    text ≠ "..." → text = "*" → ptb_rule tag text "SYM"
| rule_afx :
    text ≠ "..." → text ≠ "*" → tag = "AFX" → ptb_rule tag text "JJ"
| rule_add :
    text ≠ "..." → text ≠ "*" → tag ≠ "AFX" → tag = "ADD" →
    ptb_rule tag text "NN"
| rule_punct :
    text ≠ "..." → text ≠ "*" → tag ≠ "AFX" → tag ≠ "ADD" →
    tag ≠ text → text ∈ punct_forms → ptb_rule tag text text
| rule_symbol :
    text ≠ "..." → text ≠ "*" → tag ≠ "AFX" → tag ≠ "ADD" →
    ¬ (tag ≠ text ∧ text ∈ punct_forms) → tag ∈ symbol_tags →
    ptb_rule tag text "SYM"
| rule_identity :
    text ≠ "..." → text ≠ "*" → tag ≠ "AFX" → tag ≠ "ADD" →
    ¬ (tag ≠ text ∧ text ∈ punct_forms) → tag ∉ symbol_tags →
    ptb_rule tag text tag.

(** ** Data model *)

(** One token of the annotator's output, with the attributes [to_conll]
    reads: [tok.text], [tok.tag_], [tok.lemma_], [tok.ent_type_], [tok.idx]
    and [tok.is_space]. *)
Record Token : Type := mkToken {
  text : string;
  tag_ : string;
  lemma_ : string;
  ent_type_ : string;
  idx : Z;
  is_space : bool
}.

(** Modelled from the spec: the class [ConllEntry] of
    [nlp_architect.data.conll], a plain data holder with no behaviour; the
    ten fields are the ten constructor arguments in their order.  [feats]
    holds the entity type, [misc] the character offset (an [int]) or the
    placeholder ['_'] of the root entry. *)
Record ConllEntry : Type := mkConllEntry {
  id : Z;
  form : string;
  lemma : string;
  pos : string;
  cpos : string;
  feats : string;
  parent_id : Z;
  relation : string;
  deps : string;
  misc : pyval
}.

#[global] Instance ConllEntry_eq_dec : EqDecision ConllEntry.
Proof. solve_decision. Defined.

(** Modelled from the spec: an entry as the parsing model returns it, "the
    same sentences augmented with predicted governor index and predicted
    relation label per token".  [int(tok.pred_parent_id)] of that index is
    the integer itself. *)
Record PredEntry : Type := mkPredEntry {
  entry : ConllEntry;
  pred_parent_id : Z;
  pred_relation : string
}.

(** A token record of the output: the Python [dict] that [parse] builds,
    keyed by field name. *)
Abbreviation ParsedTok := (gmap string pyval).

(** Modelled from the spec: the class [CoreNLPDoc] of
    [nlp_architect.utils.core_nlp_doc], a plain data holder: an optional raw
    text, unset on construction, and the list of sentences, empty on
    construction. *)
Record CoreNLPDoc : Type := mkCoreNLPDoc {
  doc_text : option string;
  sentences : list (list ParsedTok)
}.

Definition CoreNLPDoc_new : CoreNLPDoc :=
  {| doc_text := None; sentences := [] |}.

(** The synthetic root entry that opens every tabular sentence. *)
Definition root_entry : ConllEntry :=
  mkConllEntry 0 "*root*" "*root*" "ROOT-POS" "ROOT-CPOS" "_"
               (-1) "rroot" "_" (PyStr "_").

Definition tab : string := String (Ascii.ascii_of_nat 9) "".
Definition newline : string := String (Ascii.ascii_of_nat 10) "".

(** ** Effects

    The annotator and the parsing model are capabilities of the instance;
    what they do beyond returning a value is a change of an abstract
    [World].  [print] appends to the standard output.  A computation threads
    both. *)
Module Eff.

Record Env (World : Type) : Type := mkEnv {
  world : World;
  stdout : list string
}.
Arguments mkEnv {World} _ _.
Arguments world {World} _.
Arguments stdout {World} _.

Definition M (World A : Type) : Type := Env World → A * Env World.

Definition ret {World A} (a : A) : M World A := λ e, (a, e).

Definition bind {World A B} (c : M World A) (k : A → M World B) : M World B :=
  λ e, let (a, e') := c e in k a e'.

(** [print(s)] *)
Definition print {World} (s : string) : M World unit :=
  λ e, (tt, mkEnv (world e) (stdout e ++ [s])).

(** A call of an external capability [f] on the argument [x]. *)
Definition call {World A B} (f : A → World → B * World) (x : A) : M World B :=
  λ e, let (b, w') := f x (world e) in (b, mkEnv w' (stdout e)).

(** [if b: c] *)
Definition when {World} (b : bool) (c : M World unit) : M World unit :=
  if b then c else ret tt.

(** [for x in l: body(x)] *)
Fixpoint for_each {World A} (body : A → M World unit) (l : list A) : M World unit :=
  match l with
  | [] => ret tt
  | x :: l' => bind (body x) (λ _, for_each body l')
  end.

(** The list of the values a generator with body [body] yields, one per
    element of [l], when it is run to its end. *)
Fixpoint yield_each {World A B} (body : A → M World B) (l : list A) : M World (list B) :=
  match l with
  | [] => ret []
  | x :: l' => bind (body x) (λ y, bind (yield_each body l') (λ ys, ret (y :: ys)))
  end.

End Eff.
Import Eff.

Notation "'let*' x ':=' c 'in' k" := (bind c (λ x, k))
  (at level 10, x name, c at level 100, k at level 200).
Notation "c ';;' k" := (bind c (λ _, k))
  (at level 100, k at level 200, right associativity).

(** ** The parser instance *)

Section SpacyBISTParser.

Context {World : Type}.

(** The fields of an initialised instance: [self.verbose],
    [self.spacy_annotator] (its result read through [.sents], a list of
    sentences, each a list of tokens) and [self.bist_parser.predict_conll],
    which consumes the sentences [to_conll] yields. *)
Variable verbose : bool.
Variable spacy_annotator : string → World → list (list Token) * World.
Variable predict_conll :
  list (list ConllEntry) → World → list (list PredEntry) * World.

(** The body of [for tok in sentence], with the loop's variables
    [sentence_conll] and [i_tok]. *)
Fixpoint to_conll_tokens (sentence : list Token)
    (sentence_conll : list ConllEntry) (i_tok : Z) : M World (list ConllEntry) :=
  match sentence with
  | [] => ret sentence_conll
  | tok :: rest =>
      when verbose (print (text tok +:+ tab +:+ tag_ tok)) ;;
      if negb (is_space tok) then
        let pos := tag_ tok in
        let text := text tok in
        if negb (text =? "-") || negb (pos =? "HYPH") then
          let pos := spacy_pos_to_ptb pos text in
          let token_conll :=
            mkConllEntry (i_tok + 1) text (lemma_ tok) pos pos
                         (ent_type_ tok) (-1) "_" "_" (PyInt (idx tok)) in
          to_conll_tokens rest (sentence_conll ++ [token_conll]) (i_tok + 1)
        else to_conll_tokens rest sentence_conll i_tok
      else to_conll_tokens rest sentence_conll i_tok
  end.

(** The body of [for sentence in ...sents], up to its [yield]. *)
Definition to_conll_sentence (sentence : list Token) : M World (list ConllEntry) :=
  let sentence_conll := [root_entry] in
  let i_tok := 0 in
  let* sentence_conll := to_conll_tokens sentence sentence_conll i_tok in
  when verbose
    (print ("-----------------------" +:+ newline +:+ "input conll form:") ;;
     for_each (λ entry,
               print (str_of_int (id entry) +:+ tab +:+ form entry +:+ tab
                      +:+ pos entry +:+ tab))
              sentence_conll) ;;
  ret sentence_conll.

(** [to_conll(doc_text)], run to its end: the list of the sentences it
    yields. *)
Definition to_conll (doc_text : pyval) : M World (list (list ConllEntry)) :=
  match doc_text with
  | PyStr s =>
      let* sents := call spacy_annotator s in
      yield_each to_conll_sentence sents
  | _ => ret []
  end.

(** The per-sentence state of [parse]: the dictionary [conj_governors],
    whose two keys ['and'] and ['or'] are fixed, as its two sets. *)
Record ConjGovernors : Type := mkConjGovernors {
  and_ : gset Z;
  or_ : gset Z
}.

Definition conj_governors_new : ConjGovernors :=
  {| and_ := ∅; or_ := ∅ |}.

(** The dictionary literal of [parsed_tok]. *)
Definition parsed_tok_new (tok : PredEntry) (gov_id : Z) (rel : string) : ParsedTok :=
  <["rel" := PyStr rel]>
  (<["gov" := PyInt (gov_id - 1)]>
  (<["lemma" := PyStr (lemma (entry tok))]>
  (<["ner" := PyStr (feats (entry tok))]>
  (<["pos" := PyStr (pos (entry tok))]>
  (<["len" := PyInt (Z.of_nat (String.length (form (entry tok))))]>
  (<["start" := misc (entry tok)]> ∅)))))).

(** The body of [for tok in sent_conll], on the loop's variables
    [conj_governors] and [parsed_sent]. *)
Definition parse_tok (show_tok : bool)
    (st : ConjGovernors * list ParsedTok) (tok : PredEntry)
  : ConjGovernors * list ParsedTok :=
  let '(conj_governors, parsed_sent) := st in
  let gov_id := pred_parent_id tok in
  let rel := pred_relation tok in
  if negb (form (entry tok) =? "*root*") then
    let conj_governors :=
      if lower (form (entry tok)) =? "and"
      then mkConjGovernors ({[gov_id]} ∪ and_ conj_governors) (or_ conj_governors)
      else conj_governors in
    let conj_governors :=
      if lower (form (entry tok)) =? "or"
      then mkConjGovernors (and_ conj_governors) ({[gov_id]} ∪ or_ conj_governors)
      else conj_governors in
    let rel :=
      if rel =? "conj" then
        let rel :=
          if bool_decide (gov_id ∈ and_ conj_governors)
          then rel +:+ "_and" else rel in
        let rel :=
          if bool_decide (gov_id ∈ or_ conj_governors)
          then rel +:+ "_or" else rel in
        rel
      else rel in
    let parsed_tok := parsed_tok_new tok gov_id rel in
    let parsed_tok :=
      if show_tok
      then <["text" := PyStr (form (entry tok))]> parsed_tok
      else parsed_tok in
    (conj_governors, parsed_sent ++ [parsed_tok])
  else (conj_governors, parsed_sent).

(** The state of the scan after the tokens [sent_conll]. *)
Definition scan (show_tok : bool) (sent_conll : list PredEntry)
  : ConjGovernors * list ParsedTok :=
  fold_left (parse_tok show_tok) sent_conll (conj_governors_new, []).

(** [parsed_sent] when the scan of the sentence ends. *)
Definition parse_sentence (show_tok : bool) (sent_conll : list PredEntry)
  : list ParsedTok :=
  snd (scan show_tok sent_conll).

(** The body of [for sent_conll in ...]: a non-empty [parsed_sent] is
    appended to the document. *)
Definition add_sentence (show_tok : bool) (parsed_doc : CoreNLPDoc)
    (sent_conll : list PredEntry) : CoreNLPDoc :=
  let parsed_sent := parse_sentence show_tok sent_conll in
  match parsed_sent with
  | [] => parsed_doc
  | _ :: _ =>
      {| doc_text := doc_text parsed_doc;
         sentences := sentences parsed_doc ++ [parsed_sent] |}
  end.

(** [parse(doc_text, show_tok, show_doc)]: [Some] document, or [None] when
    the function falls off its end.  The generator [doc_conll] is run by
    the parsing model, which reads all of it. *)
Definition parse (doc_text show_tok show_doc : pyval) : M World (option CoreNLPDoc) :=
  match doc_text, show_tok, show_doc with
  | PyStr s, PyBool show_tok, PyBool show_doc =>
      let* doc_conll := to_conll doc_text in
      let parsed_doc := CoreNLPDoc_new in
      let parsed_doc :=
        if show_doc
        then {| doc_text := Some s; sentences := sentences parsed_doc |}
        else parsed_doc in
      let* predicted := call predict_conll doc_conll in
      ret (Some (fold_left (add_sentence show_tok) predicted parsed_doc))
  | _, _, _ => ret None
  end.

End SpacyBISTParser.


(** ** Specification-side vocabulary *)

(** A token survives the filter of [to_conll]: it is not whitespace, and it
    is not the hyphen tagged [HYPH]. *)
Definition kept (tok : Token) : Prop :=
  is_space tok = false ∧ ¬ (text tok = "-" ∧ tag_ tok = "HYPH").

#[global] Instance kept_dec (tok : Token) : Decision (kept tok).
Proof. unfold kept. apply _. Defined.

(** The tabular entry of a surviving token that receives the index [i]: its
    tag goes through [spacy_pos_to_ptb]. *)
Definition conll_of_token (i : Z) (tok : Token) : ConllEntry :=
  mkConllEntry i (text tok) (lemma_ tok)
               (spacy_pos_to_ptb (tag_ tok) (text tok))
               (spacy_pos_to_ptb (tag_ tok) (text tok))
               (ent_type_ tok) (-1) "_" "_" (PyInt (idx tok)).

(** The tabular sentence of a sentence of tokens. *)
Definition conll_of_sentence (sentence : list Token) : list ConllEntry :=
  root_entry :: imap (λ k, conll_of_token (Z.of_nat k + 1)) (filter kept sentence).

(** A predicted entry is not the root: [tok.form != '*root*']. *)
Definition nonroot (tok : PredEntry) : Prop := form (entry tok) ≠ "*root*".

#[global] Instance nonroot_dec (tok : PredEntry) : Decision (nonroot tok).
Proof. unfold nonroot. apply _. Defined.

(** A predicted entry is an occurrence of the conjunction [w]. *)
Definition conj_word (w : string) (tok : PredEntry) : Prop :=
  nonroot tok ∧ lower (form (entry tok)) = w.

#[global] Instance conj_word_dec (w : string) (tok : PredEntry) :
  Decision (conj_word w tok).
Proof. unfold conj_word. apply _. Defined.

(** The sentences the parsing model returns during [parse] of the text [s]
    from the environment [env]. *)
Definition predicted {World : Type} (verbose : bool)
    (spacy_annotator : string → World → list (list Token) * World)
    (predict_conll : list (list ConllEntry) → World → list (list PredEntry) * World)
    (s : string) (env : Env World) : list (list PredEntry) :=
  let (doc_conll, env1) := to_conll verbose spacy_annotator (PyStr s) env in
  fst (predict_conll doc_conll (world env1)).

(** ** Resolver vocabulary *)

(** The governor sets after the token [tok] has been looked at. *)
Definition register (cg : ConjGovernors) (tok : PredEntry) : ConjGovernors :=
  {| and_ := if decide (lower (form (entry tok)) = "and")
             then {[pred_parent_id tok]} ∪ and_ cg else and_ cg;
     or_ := if decide (lower (form (entry tok)) = "or")
            then {[pred_parent_id tok]} ∪ or_ cg else or_ cg |}.

(** The relation label of [tok] resolved against the governor sets [cg]. *)
Definition resolve (cg : ConjGovernors) (tok : PredEntry) : string :=
  if decide (pred_relation tok = "conj") then
    "conj"
    +:+ (if decide (pred_parent_id tok ∈ and_ cg) then "_and" else "")
    +:+ (if decide (pred_parent_id tok ∈ or_ cg) then "_or" else "")
  else pred_relation tok.

(** The token record emitted for the non-root token [tok] when the governor
    sets are [cg] before it. *)
Definition emitted (show_tok : bool) (cg : ConjGovernors) (tok : PredEntry) : ParsedTok :=
  let r := parsed_tok_new tok (pred_parent_id tok) (resolve (register cg tok) tok) in
  if show_tok then <["text" := PyStr (form (entry tok))]> r else r.

(** ** Verbose output and token-side records *)

(** What [to_conll] prints for one sentence when [self.verbose] holds: a
    line per token with its raw tag, the header, then a line per tabular
    entry with its normalised tag. *)
Definition sentence_log (sentence : list Token) : list string :=
  ((λ tok, text tok +:+ tab +:+ tag_ tok) <$> sentence)
  ++ ["-----------------------" +:+ newline +:+ "input conll form:"]
  ++ ((λ e, str_of_int (id e) +:+ tab +:+ form e +:+ tab +:+ pos e +:+ tab)
        <$> conll_of_sentence sentence).

(** A token reaches the output document: it survives the filter of
    [to_conll] and its text is not the form of the root entry. *)
Definition surfaces (tok : Token) : Prop := kept tok ∧ text tok ≠ "*root*".

#[global] Instance surfaces_dec (tok : Token) : Decision (surfaces tok).
Proof. unfold surfaces. apply _. Defined.

(** The part of a token record that comes from the annotator's token. *)
Definition token_record (show_tok : bool) (tok : Token) : ParsedTok :=
  let r : ParsedTok :=
    <["lemma" := PyStr (lemma_ tok)]>
    (<["ner" := PyStr (ent_type_ tok)]>
    (<["pos" := PyStr (spacy_pos_to_ptb (tag_ tok) (text tok))]>
    (<["len" := PyInt (Z.of_nat (String.length (text tok)))]>
    (<["start" := PyInt (idx tok)]> ∅)))) in
  if show_tok then <["text" := PyStr (text tok)]> r else r.

(** ** Construction and model download *)

(** An exception: the missing attribute of an instance that was not
    initialised, or whatever a capability raises. *)
Inductive exn : Type :=
| AttributeError (attribute : string)
| Failure (what : string).

(** How a call ends. *)
Inductive outcome (A : Type) : Type :=
| Return (a : A)
| Raise (e : exn).
Arguments Return {A} _.
Arguments Raise {A} _.

(** The argument [spacy_model]: a model name, an instance of [str], or a
    path object. *)
Inductive model_ref : Type :=
| ModelName (name : string)
| ModelPath (path : string).

(** Computations that may raise. *)
Module Exc.

Definition E (World A : Type) : Type := M World (outcome A).

Definition retE {World A} (a : A) : E World A := ret (Return a).

Definition raiseE {World A} (e : exn) : E World A := ret (Raise e).

Definition bindE {World A B} (c : E World A) (k : A → E World B) : E World B :=
  λ env, match c env with
         | (Return a, env') => k a env'
         | (Raise e, env') => (Raise e, env')
         end.

(** A computation that cannot raise. *)
Definition liftE {World A} (c : M World A) : E World A :=
  λ env, let (a, env') := c env in (Return a, env').

(** A call of an external capability, its arguments already applied. *)
Definition calling {World A} (f : World → A * World) : M World A :=
  λ env, let (a, w') := f (world env) in (a, mkEnv w' (stdout env)).

End Exc.
Import Exc.

Notation "'let!' x ':=' c 'in' k" := (bindE c (λ x, k))
  (at level 10, x name, c at level 100, k at level 200).
Notation "c ';;!' k" := (bindE c (λ _, k))
  (at level 100, k at level 200, right associativity).

(** The attributes of an initialised instance. *)
Record Instance (BISTModel Language : Type) : Type := mkInstance {
  self_verbose : bool;
  self_bist_parser : BISTModel;
  self_spacy_annotator : Language
}.
Arguments mkInstance {BISTModel Language} _ _ _.
Arguments self_verbose {BISTModel Language} _.
Arguments self_bist_parser {BISTModel Language} _.
Arguments self_spacy_annotator {BISTModel Language} _.

(** The truth value of an optional string: [None] and [''] are false. *)
Definition truthy (o : option string) : bool :=
  match o with
  | Some s => negb (s =? "")
  | None => false
  end.

Section Construction.

Context {World BISTModel Language : Type}.

(** [os.path.join], the directory [SpacyBISTParser.dir] of the module,
    [os.path.isfile] on the file system of the world, and the capabilities
    the constructor calls: [download_file(url, name, dest)],
    [unzip_file(zip, outpath)], [BISTModel()], [BISTModel.load(path)],
    [spacy.load(model)], each of which may raise; then the two methods that
    [parse] and [to_conll] call on the loaded objects. *)
Variable path_join : list string → string.
Variable dir : string.
Variable isfile : string → World → bool.
Variable download_file : string → string → string → World → outcome unit * World.
Variable unzip_file : string → string → World → outcome unit * World.
Variable BISTModel_new : World → outcome BISTModel * World.
Variable BISTModel_load : BISTModel → string → World → outcome unit * World.
Variable spacy_load : model_ref → World → outcome Language * World.
Variable BISTModel_predict_conll :
  BISTModel → list (list ConllEntry) → World → list (list PredEntry) * World.
Variable Language_call : Language → string → World → list (list Token) * World.

(** [SpacyBISTParser.pretrained] *)
Definition pretrained : string :=
  path_join [dir; "bist-pretrained"; "bist.model"].

(** [download_pretrained_model()] *)
Definition download_pretrained_model : E World unit :=
  λ env,
    if negb (isfile (path_join [dir; "bist-pretrained"; "bist.model"]) (world env))
    then
      (liftE (print "Downloading pre-trained BIST model...") ;;!
       calling (download_file
                  "https://s3-us-west-1.amazonaws.com/nervana-modelzoo/parse/"
                  "bist-pretrained.zip"
                  (path_join [dir; "bist-pretrained.zip"])) ;;!
       liftE (print "Unzipping...") ;;!
       calling (unzip_file (path_join [dir; "bist-pretrained.zip"]) dir) ;;!
       liftE (print "Done.")) env
    else retE tt env.

(** [SpacyBISTParser.__init__(verbose, spacy_model, bist_model)]: the
    attributes it sets, or [None] when it sets none. *)
Definition init (verbose : bool) (spacy_model : model_ref)
    (bist_model : option string) : E World (option (Instance BISTModel Language)) :=
  let! bist_model :=
    (if negb (truthy bist_model) then
       liftE (print "Using pre-trained BIST model.") ;;!
       download_pretrained_model ;;!
       retE pretrained
     else retE (default "" bist_model)) in
  λ env,
    if isfile bist_model (world env)
       && match spacy_model with
          | ModelName _ => true
          | ModelPath p => isfile p (world env)
          end
    then
      (let! bist_parser := calling BISTModel_new in
       calling (BISTModel_load bist_parser
                  (if negb (bist_model =? "") then bist_model else pretrained)) ;;!
       let! spacy_annotator := calling (spacy_load spacy_model) in
       retE (Some (mkInstance verbose bist_parser spacy_annotator))) env
    else retE None env.

(** [self.parse(doc_text, show_tok, show_doc)] on an instance that may lack
    its attributes: the first attribute read is [self.bist_parser]. *)
Definition parse_self (self : option (Instance BISTModel Language))
    (doc_text show_tok show_doc : pyval) : E World (option CoreNLPDoc) :=
  match doc_text, show_tok, show_doc with
  | PyStr _, PyBool _, PyBool _ =>
      match self with
      | None => raiseE (AttributeError "bist_parser")
      | Some i =>
          liftE (parse (self_verbose i)
                       (Language_call (self_spacy_annotator i))
                       (BISTModel_predict_conll (self_bist_parser i))
                       doc_text show_tok show_doc)
      end
  | _, _, _ => retE None
  end.

(** [self.to_conll(doc_text)], run to its end, on such an instance: the
    first attribute read is [self.spacy_annotator]. *)
Definition to_conll_self (self : option (Instance BISTModel Language))
    (doc_text : pyval) : E World (list (list ConllEntry)) :=
  match doc_text with
  | PyStr _ =>
      match self with
      | None => raiseE (AttributeError "spacy_annotator")
      | Some i =>
          liftE (to_conll (self_verbose i)
                          (Language_call (self_spacy_annotator i)) doc_text)
      end
  | _ => retE []
  end.

End Construction.

(** ** A sample instance

    An annotator and a parsing model that are functions of their input, with
    the number of capability calls made so far as the world. *)
Module Sample.

Definition doc : string := "Tom and Jerry ran.  ".

(** Two sentences: five tokens and a hyphen tagged [HYPH], then a sentence
    that is a single whitespace token. *)
Definition sents : list (list Token) :=
  [ [ mkToken "Tom" "NNP" "tom" "PERSON" 0 false;
      mkToken "and" "CC" "and" "" 4 false;
      mkToken "-" "HYPH" "-" "" 7 false;
      mkToken "Jerry" "NNP" "jerry" "PERSON" 8 false;
      mkToken "ran" "VBD" "run" "" 14 false;
      mkToken "." "." "." "" 17 false ];
    [ mkToken "  " "_SP" "  " "" 18 true ] ].

Definition annotator (s : string) (calls : nat) : list (list Token) * nat :=
  (if s =? doc then sents else [], S calls).

Definition heads : list Z := [-1; 4; 1; 1; 0; 4].
Definition labels : list string := ["_"; "nsubj"; "cc"; "conj"; "root"; "punct"].

(** Each entry comes back with the head and the label listed at its index. *)
Definition predict (doc_conll : list (list ConllEntry)) (calls : nat)
  : list (list PredEntry) * nat :=
  (fmap (M:=list)
        (λ e, mkPredEntry e (nth (Z.to_nat (id e)) heads 0)
                          (nth (Z.to_nat (id e)) labels "dep"))
     <$> doc_conll,
   S calls).

Definition env0 : Env nat := mkEnv 0%nat [].

(** A predicted entry with the form [f], the head [g] and the label [r]. *)
Definition pe (i : Z) (f : string) (g : Z) (r : string) : PredEntry :=
  mkPredEntry (mkConllEntry i f (lower f) "X" "X" "" (-1) "_" "_" (PyInt i)) g r.

Definition pe_root : PredEntry := mkPredEntry root_entry (-1) "_".

(** "Tom and Ann or Bob": both conjunctions and both conjuncts hang on the
    first token. *)
Definition tom_and_ann : list PredEntry :=
  [pe_root; pe 1 "Tom" 0 "root"; pe 2 "and" 1 "cc"; pe 3 "Ann" 1 "conj"].
Definition bob : PredEntry := pe 5 "Bob" 1 "conj".
Definition or_ann : list PredEntry := tom_and_ann ++ [pe 4 "Or" 1 "cc"].

(** "Jerry or Tom ran": the conjunct comes before its conjunction. *)
Definition jerry : PredEntry := pe 1 "Jerry" 4 "conj".
Definition or_tom_ran : list PredEntry :=
  [pe 2 "or" 4 "cc"; pe 3 "Tom" 4 "nsubj"; pe 4 "ran" 0 "root"].

End Sample.

(** ** A sample file system

    The world is the list of the files that exist; downloading creates the
    archive, unzipping creates the model file. *)
Module SampleFS.

Definition path_join (parts : list string) : string := String.concat "/" parts.

Definition dir : string := "/opt/spacy_bist".

Definition isfile (p : string) (files : list string) : bool :=
  bool_decide (p ∈ files).

Definition download_file (url name dest : string) (files : list string)
  : outcome unit * list string :=
  (Return tt, dest :: files).

Definition download_fails (url name dest : string) (files : list string)
  : outcome unit * list string :=
  (Raise (Failure "connection refused"), files).

Definition unzip_file (zip outpath : string) (files : list string)
  : outcome unit * list string :=
  (Return tt, path_join [outpath; "bist-pretrained"; "bist.model"] :: files).

Definition BISTModel_new (files : list string) : outcome unit * list string :=
  (Return tt, files).

Definition BISTModel_load (m : unit) (path : string) (files : list string)
  : outcome unit * list string :=
  (Return tt, files).

Definition spacy_load (m : model_ref) (files : list string)
  : outcome unit * list string :=
  (Return tt, files).

Definition predict_conll (m : unit) (doc_conll : list (list ConllEntry))
    (files : list string) : list (list PredEntry) * list string :=
  (fmap (M:=list) (λ e, mkPredEntry e 0 "dep") <$> doc_conll, files).

Definition annotate (m : unit) (s : string) (files : list string)
  : list (list Token) * list string :=
  ([], files).

Definition env0 : Env (list string) := mkEnv [] [].

End SampleFS.

(** * Properties *)

(** ** String tests *)

Section Strings.

Lemma eqb_true (a b : string) : (a =? b)%string = true ↔ a = b.
Proof. apply String.eqb_eq. Qed.

Lemma eqb_false (a b : string) : (a =? b)%string = false ↔ a ≠ b.
Proof. apply String.eqb_neq. Qed.

Lemma str_in_true (x : string) (l : list string) :
  str_in x l = true ↔ x ∈ l.
Proof.
  unfold str_in. induction l as [|y l IH]; simpl.
  - split; [discriminate | intros H; inversion H].
  - rewrite orb_true_iff, IH, eqb_true, elem_of_cons. reflexivity.
Qed.

Lemma str_in_false (x : string) (l : list string) :
  str_in x l = false ↔ x ∉ l.
Proof.
  rewrite <- str_in_true. destruct (str_in x l); split; congruence.
Qed.

End Strings.

(** The rule table is a function: at most one result per input. *)
Lemma ptb_rule_functional (tag text r1 r2 : string) :
  ptb_rule tag text r1 → ptb_rule tag text r2 → r1 = r2.
Proof.
  intros H1 H2.
  destruct H1; destruct H2; try reflexivity; try congruence;
    try (exfalso; tauto).
Qed.

Lemma spacy_pos_to_ptb_rule (pos text : string) :
  ptb_rule pos text (spacy_pos_to_ptb pos text).
Proof.
  unfold spacy_pos_to_ptb.
  destruct (text =? "...")%string eqn:E1.
  { apply rule_ellipsis. by apply eqb_true. }
  destruct (text =? "*")%string eqn:E2.
  { apply rule_star; [by apply eqb_false | by apply eqb_true]. }
  destruct (pos =? "AFX")%string eqn:E3.
  { apply rule_afx; [by apply eqb_false .. | by apply eqb_true]. }
  destruct (pos =? "ADD")%string eqn:E4.
  { apply rule_add; [by apply eqb_false .. | by apply eqb_true]. }
  apply eqb_false in E1, E2, E3, E4.
  destruct (negb (text =? pos)%string && str_in text _) eqn:E5.
  { apply andb_true_iff in E5 as [E5 E5'].
    apply negb_true_iff, eqb_false in E5. apply str_in_true in E5'.
    apply rule_punct; auto. }
  assert (¬ (pos ≠ text ∧ text ∈ punct_forms)) as N5.
  { intros [Hne Hin]. apply str_in_true in Hin.
    apply andb_false_iff in E5 as [E5 | E5].
    - apply negb_false_iff, eqb_true in E5. congruence.
    - unfold punct_forms in Hin. congruence. }
  destruct (str_in pos _) eqn:E6.
  - apply rule_symbol; auto. by apply str_in_true.
  - apply rule_identity; auto. by apply str_in_false.
Qed.

(** C1: [spacy_pos_to_ptb] is total and applies exactly the
    precedence-ordered rule table, first match wins: its result is the one
    the table gives, and the table gives no other; the four sample pairs of
    the specification evaluate as stated, and the empty strings fall through
    to the identity rule. *)
Theorem spacy_pos_to_ptb_rule_table :
  (∀ pos text : string,
      ptb_rule pos text (spacy_pos_to_ptb pos text)
      ∧ ∀ r, ptb_rule pos text r → r = spacy_pos_to_ptb pos text)
  ∧ spacy_pos_to_ptb "..." "..." = ":"
  ∧ spacy_pos_to_ptb "*" "*" = "SYM"
  ∧ spacy_pos_to_ptb "AFX" "x" = "JJ"
  ∧ spacy_pos_to_ptb "NNP" "dog" = "NNP"
  ∧ spacy_pos_to_ptb "" "" = "".
Proof.
  split; [| repeat split].
  intros pos text. split; [apply spacy_pos_to_ptb_rule |].
  intros r Hr. eapply ptb_rule_functional; [exact Hr |].
  apply spacy_pos_to_ptb_rule.
Qed.

(** Rule 5 needs the tag to differ from the text; the hyphen tag falls to
    rule 6. *)
Example spacy_pos_to_ptb_samples :
  spacy_pos_to_ptb "NN" "," = ","
  ∧ spacy_pos_to_ptb "," "," = ","
  ∧ spacy_pos_to_ptb "HYPH" "-" = "SYM"
  ∧ spacy_pos_to_ptb "ADD" "*" = "SYM"
  ∧ spacy_pos_to_ptb "AFX" "..." = ":".
Proof. repeat split. Qed.

Example lower_samples :
  lower "AND" = "and" ∧ lower "Or" = "or" ∧ lower "*root*" = "*root*".
Proof. repeat split. Qed.

Example str_of_int_samples :
  str_of_int 0 = "0" ∧ str_of_int 12 = "12" ∧ str_of_int (-1) = "-1".
Proof. repeat split. Qed.

(** ** The tabular conversion *)

Section ToConll.

Context {World : Type}.
Variable verbose : bool.
Variable spacy_annotator : string → World → list (list Token) * World.

Lemma kept_test (tok : Token) :
  negb (is_space tok)
  && (negb (text tok =? "-") || negb (tag_ tok =? "HYPH")) = true
  ↔ kept tok.
Proof.
  unfold kept.
  rewrite andb_true_iff, orb_true_iff, !negb_true_iff, !eqb_false.
  destruct (decide (text tok = "-")), (decide (tag_ tok = "HYPH")); tauto.
Qed.

Lemma to_conll_tokens_fst (sentence : list Token) :
  ∀ (acc : list ConllEntry) (i : Z) (env : Env World),
    fst (to_conll_tokens verbose sentence acc i env)
    = acc ++ imap (λ k, conll_of_token (i + Z.of_nat k + 1)) (filter kept sentence).
Proof.
  induction sentence as [|tok rest IH]; intros acc i env.
  - simpl. by rewrite app_nil_r.
  - cbn [to_conll_tokens]. unfold bind at 1.
    destruct (when verbose _ env) as [[] env'].
    pose proof (kept_test tok) as Hk.
    rewrite filter_cons.
    destruct (is_space tok) eqn:Hs; cbn [negb andb] in *.
    { rewrite decide_False by (intros [? _]; congruence). apply IH. }
    destruct (negb (text tok =? "-") || negb (tag_ tok =? "HYPH")) eqn:Ht.
    + rewrite decide_True by (by apply Hk).
      rewrite IH, <- app_assoc. f_equal. cbn [imap app]. f_equal.
      * unfold conll_of_token. f_equal. lia.
      * apply imap_ext. intros k t _. cbn. f_equal. lia.
    + rewrite decide_False by (intros Hc; apply Hk in Hc; congruence).
      apply IH.
Qed.

Lemma to_conll_sentence_fst (sentence : list Token) (env : Env World) :
  fst (to_conll_sentence verbose sentence env) = conll_of_sentence sentence.
Proof.
  unfold to_conll_sentence, conll_of_sentence, bind.
  pose proof (to_conll_tokens_fst sentence [root_entry] 0 env) as H.
  destruct (to_conll_tokens verbose sentence [root_entry] 0 env) as [sc env1].
  destruct (when verbose _ env1) as [[] env2]. cbn in *. subst sc.
  f_equal.
Qed.

(** The tabular conversion changes the world only through the annotator
    (printing touches the standard output alone). *)
Lemma to_conll_tokens_world (sentence : list Token) :
  ∀ (acc : list ConllEntry) (i : Z) (env : Env World),
    world (snd (to_conll_tokens verbose sentence acc i env)) = world env.
Proof.
  induction sentence as [|tok rest IH]; intros acc i env; [done|].
  cbn [to_conll_tokens]. unfold bind at 1.
  assert (world (snd (when verbose (print (text tok +:+ tab +:+ tag_ tok)) env))
          = world env) as Hw by (by destruct verbose).
  destruct (when verbose _ env) as [[] env']. cbn in Hw. rewrite <- Hw.
  destruct (negb (is_space tok)); [|apply IH].
  destruct (negb (text tok =? "-") || negb (tag_ tok =? "HYPH")); apply IH.
Qed.

Lemma for_each_print_world {A : Type} (f : A → string) (l : list A) :
  ∀ env : Env World, world (snd (for_each (λ x, print (f x)) l env)) = world env.
Proof.
  induction l as [|x l IH]; intros env; [done|].
  cbn [for_each]. unfold bind, print at 1. cbn. by rewrite IH.
Qed.

Lemma to_conll_sentence_world (sentence : list Token) (env : Env World) :
  world (snd (to_conll_sentence verbose sentence env)) = world env.
Proof.
  unfold to_conll_sentence, bind.
  pose proof (to_conll_tokens_world sentence [root_entry] 0 env) as H.
  destruct (to_conll_tokens verbose sentence [root_entry] 0 env) as [sc env1].
  cbn in H. rewrite <- H.
  destruct verbose; cbn; [|done].
  pose proof (for_each_print_world
    (λ entry, str_of_int (id entry) +:+ tab +:+ form entry +:+ tab
              +:+ pos entry +:+ tab) sc
    {| world := world env1;
       stdout := stdout env1
                 ++ ["-----------------------" +:+ newline +:+ "input conll form:"] |})
    as Hf.
  destruct (for_each _ sc _) as [[] env2]. cbn in *. done.
Qed.

Lemma yield_each_to_conll_sentence (sents : list (list Token)) :
  ∀ env : Env World,
    fst (yield_each (to_conll_sentence verbose) sents env)
    = map conll_of_sentence sents
    ∧ world (snd (yield_each (to_conll_sentence verbose) sents env)) = world env.
Proof.
  induction sents as [|sentence sents IH]; intros env; [done|].
  cbn [yield_each]. unfold bind.
  pose proof (to_conll_sentence_fst sentence env) as H1.
  pose proof (to_conll_sentence_world sentence env) as H2.
  destruct (to_conll_sentence verbose sentence env) as [sc env1].
  destruct (IH env1) as [H3 H4].
  destruct (yield_each _ sents env1) as [scs env2].
  cbn in *. subst. split; [done | congruence].
Qed.

(** [to_conll] on a string: the annotator is called once, on the text, and
    every sentence it returns is converted. *)
Lemma to_conll_str (s : string) (env : Env World) :
  fst (to_conll verbose spacy_annotator (PyStr s) env)
  = map conll_of_sentence (fst (spacy_annotator s (world env)))
  ∧ world (snd (to_conll verbose spacy_annotator (PyStr s) env))
    = snd (spacy_annotator s (world env)).
Proof.
  unfold to_conll, bind, call.
  destruct (spacy_annotator s (world env)) as [sents w1].
  apply (yield_each_to_conll_sentence sents {| world := w1; stdout := stdout env |}).
Qed.

End ToConll.

(** ** The conjunction-relation resolver *)

Section Resolver.

Variable show_tok : bool.

Lemma parse_tok_root (st : ConjGovernors * list ParsedTok) (tok : PredEntry) :
  ¬ nonroot tok → parse_tok show_tok st tok = st.
Proof.
  unfold nonroot, parse_tok. intros H. destruct st as [cg ps].
  assert (form (entry tok) = "*root*") as E
    by (destruct (decide (form (entry tok) = "*root*")); tauto).
  apply eqb_true in E. by rewrite E.
Qed.

Lemma parse_tok_nonroot (cg : ConjGovernors) (ps : list ParsedTok) (tok : PredEntry) :
  nonroot tok →
  parse_tok show_tok (cg, ps) tok = (register cg tok, ps ++ [emitted show_tok cg tok]).
Proof.
  unfold nonroot, parse_tok, emitted, resolve, register. intros H.
  apply eqb_false in H. rewrite H. cbn [negb].
  destruct cg as [a o]. cbn [and_ or_].
  destruct (lower (form (entry tok)) =? "and") eqn:Ea;
    [apply eqb_true in Ea | apply eqb_false in Ea];
    [rewrite (decide_True _ _ Ea) | rewrite (decide_False _ _ Ea)];
    (destruct (lower (form (entry tok)) =? "or") eqn:Eo;
     [apply eqb_true in Eo | apply eqb_false in Eo];
     [rewrite (decide_True _ _ Eo) | rewrite (decide_False _ _ Eo)]);
    cbn [and_ or_];
    (destruct (pred_relation tok =? "conj") eqn:Er;
     [apply eqb_true in Er | apply eqb_false in Er];
     [rewrite (decide_True _ _ Er) | rewrite (decide_False _ _ Er)];
     [rewrite Er | reflexivity]);
    repeat case_bool_decide; repeat case_decide; try tauto; reflexivity.
Qed.

(** What the scan has appended so far does not influence what it appends
    next. *)
Lemma scan_from_snd (l : list PredEntry) :
  ∀ (cg : ConjGovernors) (ps : list ParsedTok),
    fold_left (parse_tok show_tok) l (cg, ps)
    = (fst (fold_left (parse_tok show_tok) l (cg, [])),
       ps ++ snd (fold_left (parse_tok show_tok) l (cg, []))).
Proof.
  induction l as [|tok l IH]; intros cg ps.
  - cbn. by rewrite app_nil_r.
  - cbn [fold_left]. destruct (decide (nonroot tok)) as [Hn | Hn].
    + rewrite !parse_tok_nonroot by done.
      rewrite (IH _ (ps ++ _)), (IH _ ([] ++ _)). cbn. by rewrite <- app_assoc.
    + rewrite !parse_tok_root by done. apply IH.
Qed.

Lemma scan_app (pre post : list PredEntry) :
  scan show_tok (pre ++ post)
  = fold_left (parse_tok show_tok) post (scan show_tok pre).
Proof. unfold scan. apply fold_left_app. Qed.

(** One record per non-root token. *)
Lemma parse_sentence_length (l : list PredEntry) :
  length (parse_sentence show_tok l) = length (filter nonroot l).
Proof.
  unfold parse_sentence.
  induction l as [|tok l IH] using rev_ind; [done|].
  rewrite scan_app, filter_app, length_app. cbn [fold_left].
  destruct (scan show_tok l) as [cg ps]. cbn [snd] in IH.
  rewrite filter_cons, filter_nil.
  destruct (decide (nonroot tok)) as [Hn | Hn].
  - rewrite parse_tok_nonroot by done. cbn [snd]. rewrite length_app. cbn. lia.
  - rewrite parse_tok_root by done. cbn. lia.
Qed.

(** The record of the token that follows the prefix [pre]. *)
Lemma parse_sentence_lookup (pre post : list PredEntry) (tok : PredEntry) :
  nonroot tok →
  parse_sentence show_tok (pre ++ tok :: post) !! length (filter nonroot pre)
  = Some (emitted show_tok (fst (scan show_tok pre)) tok).
Proof.
  intros Hn. rewrite <- parse_sentence_length. unfold parse_sentence.
  rewrite scan_app. cbn [fold_left].
  destruct (scan show_tok pre) as [cg ps]. cbn [fst snd].
  rewrite parse_tok_nonroot by done.
  rewrite scan_from_snd. cbn [snd]. rewrite <- app_assoc. cbn [app].
  by rewrite list_lookup_middle.
Qed.

(** The governor sets at any point of the scan: the governors of the
    occurrences of each conjunction seen so far. *)
Lemma scan_governors (l : list PredEntry) :
  and_ (fst (scan show_tok l))
  = list_to_set (pred_parent_id <$> filter (conj_word "and") l)
  ∧ or_ (fst (scan show_tok l))
    = list_to_set (pred_parent_id <$> filter (conj_word "or") l).
Proof.
  induction l as [|tok l [IHa IHo]] using rev_ind; [done|].
  rewrite scan_app, !filter_app, !fmap_app, !list_to_set_app_L.
  cbn [fold_left]. rewrite <- IHa, <- IHo.
  destruct (scan show_tok l) as [cg ps]. cbn [fst].
  rewrite !filter_cons, !filter_nil. unfold conj_word.
  destruct (decide (nonroot tok)) as [Hn | Hn].
  - rewrite parse_tok_nonroot by done. unfold register. cbn [fst and_ or_].
    split.
    + destruct (decide (lower (form (entry tok)) = "and")) as [E | E];
        [rewrite decide_True by done | rewrite decide_False by tauto]; cbn.
      * rewrite (right_id_L ∅ (∪)). apply (comm_L (∪)).
      * by rewrite (right_id_L ∅ (∪)).
    + destruct (decide (lower (form (entry tok)) = "or")) as [E | E];
        [rewrite decide_True by done | rewrite decide_False by tauto]; cbn.
      * rewrite (right_id_L ∅ (∪)). apply (comm_L (∪)).
      * by rewrite (right_id_L ∅ (∪)).
  - rewrite parse_tok_root by done. cbn [fst].
    rewrite !decide_False by tauto. cbn. by rewrite !(right_id_L ∅ (∪)).
Qed.

Lemma scan_register (pre : list PredEntry) (tok : PredEntry) :
  nonroot tok →
  fst (scan show_tok (pre ++ [tok])) = register (fst (scan show_tok pre)) tok.
Proof.
  intros Hn. rewrite scan_app. cbn [fold_left].
  destruct (scan show_tok pre) as [cg ps]. by rewrite parse_tok_nonroot.
Qed.

End Resolver.

(** ** The pipeline driver *)

Section Parse.

Context {World : Type}.
Variable verbose : bool.
Variable spacy_annotator : string → World → list (list Token) * World.
Variable predict_conll :
  list (list ConllEntry) → World → list (list PredEntry) * World.

Lemma fold_add_sentence (show_tok : bool) (sents : list (list PredEntry)) :
  ∀ parsed_doc : CoreNLPDoc,
    fold_left (add_sentence show_tok) sents parsed_doc
    = {| doc_text := doc_text parsed_doc;
         sentences := sentences parsed_doc
                      ++ filter (λ ps, ps ≠ []) (parse_sentence show_tok <$> sents) |}.
Proof.
  induction sents as [|sent sents IH]; intros parsed_doc.
  - cbn. rewrite app_nil_r. by destruct parsed_doc.
  - cbn [fold_left fmap list_fmap]. rewrite IH, filter_cons. unfold add_sentence.
    destruct (parse_sentence show_tok sent) as [|r rs] eqn:E.
    + by rewrite decide_False by (intros H; by apply H).
    + rewrite decide_True by done. cbn. by rewrite <- app_assoc.
Qed.

(** What [parse] returns when its arguments pass the type test. *)
Lemma parse_returns (s : string) (show_tok show_doc : bool) (env : Env World) :
  fst (parse verbose spacy_annotator predict_conll
             (PyStr s) (PyBool show_tok) (PyBool show_doc) env)
  = Some {| doc_text := if show_doc then Some s else None;
            sentences :=
              filter (λ ps, ps ≠ [])
                     (parse_sentence show_tok
                        <$> predicted verbose spacy_annotator predict_conll s env) |}.
Proof.
  unfold parse, predicted, bind, call.
  destruct (to_conll verbose spacy_annotator (PyStr s) env) as [doc_conll env1].
  destruct (predict_conll doc_conll (world env1)) as [sents w2].
  cbn [fst ret]. rewrite fold_add_sentence. by destruct show_doc.
Qed.

(** The environment after [parse] does not depend on [show_tok] or
    [show_doc]. *)
Lemma parse_env (s : string) (st st' sd sd' : bool) (env : Env World) :
  snd (parse verbose spacy_annotator predict_conll
             (PyStr s) (PyBool st) (PyBool sd) env)
  = snd (parse verbose spacy_annotator predict_conll
               (PyStr s) (PyBool st') (PyBool sd') env).
Proof.
  unfold parse, bind, call.
  destruct (to_conll verbose spacy_annotator (PyStr s) env) as [doc_conll env1].
  by destruct (predict_conll doc_conll (world env1)) as [sents w2].
Qed.

(** The sentences the model returns are a function of the text when the two
    capabilities are functions of their inputs. *)
Lemma predicted_deterministic (s : string) (env env' : Env World) :
  (∀ t w w', fst (spacy_annotator t w) = fst (spacy_annotator t w')) →
  (∀ ss w w', fst (predict_conll ss w) = fst (predict_conll ss w')) →
  predicted verbose spacy_annotator predict_conll s env
  = predicted verbose spacy_annotator predict_conll s env'.
Proof.
  intros Ha Hp. unfold predicted.
  destruct (to_conll_str verbose spacy_annotator s env) as [H1 _].
  destruct (to_conll_str verbose spacy_annotator s env') as [H2 _].
  destruct (to_conll verbose spacy_annotator (PyStr s) env) as [c1 e1].
  destruct (to_conll verbose spacy_annotator (PyStr s) env') as [c2 e2].
  cbn [fst] in H1, H2. rewrite H1, H2, (Ha s (world env) (world env')).
  apply Hp.
Qed.

End Parse.

(** ** Fields of the emitted records *)

Section Fields.

Variable show_tok : bool.

(** A field that depends on the token alone is read off the non-root tokens
    in their order. *)
Lemma parse_sentence_map {X : Type} (f : ParsedTok → X) (g : PredEntry → X)
    (l : list PredEntry) :
  (∀ cg tok, f (emitted show_tok cg tok) = g tok) →
  f <$> parse_sentence show_tok l = g <$> filter nonroot l.
Proof.
  intros Hfg. unfold parse_sentence.
  induction l as [|tok l IH] using rev_ind; [done|].
  rewrite scan_app, filter_app, fmap_app. cbn [fold_left].
  destruct (scan show_tok l) as [cg ps]. cbn [snd] in IH.
  rewrite filter_cons, filter_nil.
  destruct (decide (nonroot tok)) as [Hn | Hn].
  - rewrite parse_tok_nonroot by done. cbn [snd].
    rewrite fmap_app, IH. cbn. by rewrite Hfg.
  - rewrite parse_tok_root by done. cbn [snd]. by rewrite IH, app_nil_r.
Qed.

Lemma emitted_lookup_ne (cg : ConjGovernors) (tok : PredEntry) (k : string) :
  k ≠ "text" →
  emitted show_tok cg tok !! k
  = parsed_tok_new tok (pred_parent_id tok) (resolve (register cg tok) tok) !! k.
Proof.
  intros Hk. unfold emitted. destruct show_tok; [|done].
  by rewrite lookup_insert_ne.
Qed.

Lemma emitted_gov (cg : ConjGovernors) (tok : PredEntry) :
  emitted show_tok cg tok !! "gov" = Some (PyInt (pred_parent_id tok - 1)).
Proof. by rewrite emitted_lookup_ne. Qed.

Lemma emitted_len (cg : ConjGovernors) (tok : PredEntry) :
  emitted show_tok cg tok !! "len"
  = Some (PyInt (Z.of_nat (String.length (form (entry tok))))).
Proof. by rewrite emitted_lookup_ne. Qed.

Lemma emitted_rel (cg : ConjGovernors) (tok : PredEntry) :
  emitted show_tok cg tok !! "rel"
  = Some (PyStr (resolve (register cg tok) tok)).
Proof. by rewrite emitted_lookup_ne. Qed.

End Fields.

Lemma emitted_text (show_tok : bool) (cg : ConjGovernors) (tok : PredEntry) :
  emitted show_tok cg tok !! "text"
  = if show_tok then Some (PyStr (form (entry tok))) else None.
Proof. unfold emitted. destruct show_tok; [by rewrite lookup_insert_eq | done]. Qed.

Lemma emitted_delete_text (cg : ConjGovernors) (tok : PredEntry) :
  emitted false cg tok = delete "text" (emitted true cg tok).
Proof.
  unfold emitted. rewrite delete_insert_eq. symmetry. by apply delete_id.
Qed.

(** ** The claims about the resolver *)

(** C2: in the left-to-right scan of a sentence, a non-root token whose
    lowercased form is "and" (respectively "or") adds its predicted governor
    to the "and" (respectively "or") set; at every point of the scan each
    set holds exactly the governors of the occurrences of its conjunction
    seen so far; and the record emitted for a non-root token whose relation
    is "conj" carries "conj" followed by "_and" when its governor is in the
    "and" set at that point, followed by "_or" when its governor is in the
    "or" set at that point, so "conj_and_or" when it is in both; any other
    relation is emitted as predicted. *)
Theorem conj_resolution_scan (show_tok : bool) (pre post : list PredEntry)
    (tok : PredEntry) :
  nonroot tok →
  let before := fst (scan show_tok pre) in
  let after := fst (scan show_tok (pre ++ [tok])) in
  let g := pred_parent_id tok in
  and_ after = (if decide (lower (form (entry tok)) = "and")
                then {[g]} ∪ and_ before else and_ before)
  ∧ or_ after = (if decide (lower (form (entry tok)) = "or")
                 then {[g]} ∪ or_ before else or_ before)
  ∧ and_ after
    = list_to_set (pred_parent_id <$> filter (conj_word "and") (pre ++ [tok]))
  ∧ or_ after
    = list_to_set (pred_parent_id <$> filter (conj_word "or") (pre ++ [tok]))
  ∧ ∃ r : ParsedTok,
      parse_sentence show_tok (pre ++ tok :: post) !! length (filter nonroot pre)
      = Some r
      ∧ r !! "rel"
        = Some (PyStr
            (if decide (pred_relation tok = "conj")
             then "conj"
                  +:+ (if decide (g ∈ and_ after) then "_and" else "")
                  +:+ (if decide (g ∈ or_ after) then "_or" else "")
             else pred_relation tok))
      ∧ (pred_relation tok = "conj" → g ∈ and_ after → g ∈ or_ after →
         r !! "rel" = Some (PyStr "conj_and_or")).
Proof.
  intros Hn before after g.
  assert (after = register before tok) as Ha by (by apply scan_register).
  destruct (scan_governors show_tok (pre ++ [tok])) as [Hand Hor].
  split; [by rewrite Ha | split; [by rewrite Ha | ]].
  split; [exact Hand | split; [exact Hor | ]].
  exists (emitted show_tok before tok).
  split; [by apply parse_sentence_lookup | ].
  rewrite emitted_rel, <- Ha. unfold resolve. fold g.
  split; [reflexivity | ].
  intros Hr Hin1 Hin2.
  by rewrite (decide_True _ _ Hr), (decide_True _ _ Hin1), (decide_True _ _ Hin2).
Qed.

(** C3: the scan is a single forward pass.  When a non-root token with
    relation "conj" and governor [g] comes before every token whose
    lowercased form is "and" or "or" and whose governor is [g] (no such token
    stands before it, and it is not one itself), its emitted relation is
    exactly "conj", whatever follows it in the sentence. *)
Theorem conj_forward_reference (show_tok : bool) (pre post : list PredEntry)
    (tok : PredEntry) :
  nonroot tok →
  pred_relation tok = "conj" →
  Forall (λ t, lower (form (entry t)) = "and" ∨ lower (form (entry t)) = "or" →
               pred_parent_id t ≠ pred_parent_id tok)
         (pre ++ [tok]) →
  ∃ r : ParsedTok,
    parse_sentence show_tok (pre ++ tok :: post) !! length (filter nonroot pre)
    = Some r
    ∧ r !! "rel" = Some (PyStr "conj").
Proof.
  intros Hn Hr Hbefore.
  exists (emitted show_tok (fst (scan show_tok pre)) tok).
  split; [by apply parse_sentence_lookup | ].
  rewrite emitted_rel, <- (scan_register show_tok pre tok Hn).
  destruct (scan_governors show_tok (pre ++ [tok])) as [Hand Hor].
  assert (∀ w, w = "and" ∨ w = "or" →
               pred_parent_id tok
               ∉@{gset Z} list_to_set (pred_parent_id <$> filter (conj_word w) (pre ++ [tok])))
    as Hout.
  { intros w Hw Hin.
    apply elem_of_list_to_set, list_elem_of_fmap in Hin as (t & Hg & Ht).
    apply list_elem_of_filter in Ht as [[_ Hl] Ht].
    rewrite Forall_forall in Hbefore.
    apply (Hbefore t Ht); [by destruct Hw; subst; tauto | done]. }
  unfold resolve. rewrite (decide_True _ _ Hr), Hand, Hor.
  rewrite decide_False by (apply Hout; tauto).
  by rewrite decide_False by (apply Hout; tauto).
Qed.

(** Mapping over the sentences commutes with dropping the empty ones. *)
Lemma fmap_filter_nonempty {A B : Type} (f : A → B) (L : list (list A)) :
  fmap (M:=list) f <$> filter (λ l, l ≠ []) L
  = filter (λ l, l ≠ []) (fmap (M:=list) f <$> L).
Proof.
  induction L as [|l L IH]; [done|].
  cbn [fmap list_fmap]. rewrite !filter_cons. destruct l as [|x l].
  - by rewrite !decide_False by (intros H; by apply H).
  - rewrite !decide_True by done. cbn. f_equal. apply IH.
Qed.

(** C4: the "gov" field of every emitted record is the predicted governor
    index of its token minus one: the document's records, sentence by
    sentence, are those of the non-root tokens of the predicted sentences in
    their order, each with that value. *)
Theorem parse_gov_field {World : Type} (verbose : bool)
    (spacy_annotator : string → World → list (list Token) * World)
    (predict_conll : list (list ConllEntry) → World → list (list PredEntry) * World)
    (s : string) (show_tok show_doc : bool) (env : Env World) :
  ∃ parsed_doc : CoreNLPDoc,
    fst (parse verbose spacy_annotator predict_conll
               (PyStr s) (PyBool show_tok) (PyBool show_doc) env)
    = Some parsed_doc
    ∧ fmap (M:=list) (λ r : ParsedTok, r !! "gov") <$> sentences parsed_doc
      = filter (λ l, l ≠ [])
          (fmap (M:=list) (λ tok, Some (PyInt (pred_parent_id tok - 1)))
             <$> (filter nonroot
                    <$> predicted verbose spacy_annotator predict_conll s env)).
Proof.
  eexists. split; [apply parse_returns | ]. cbn [sentences].
  rewrite fmap_filter_nonempty. f_equal.
  rewrite <- !list_fmap_compose. apply list_fmap_ext. intros _ sent _. cbn.
  apply parse_sentence_map. intros cg tok. apply emitted_gov.
Qed.

(** ** The claims about the tabular conversion *)

(** C5: the tabular sentence of every sentence is the root entry followed
    by one entry per token that is not whitespace and is not the form "-"
    with the tag "HYPH", in the order of the tokens; every other token is
    dropped; the tag of a surviving token is passed through
    [spacy_pos_to_ptb], and the result fills both tag fields of its entry. *)
Theorem to_conll_filters_tokens {World : Type} (verbose : bool)
    (spacy_annotator : string → World → list (list Token) * World)
    (s : string) (env : Env World) :
  fst (to_conll verbose spacy_annotator (PyStr s) env)
  = (λ sentence : list Token,
       root_entry
       :: imap (λ k tok,
                mkConllEntry (Z.of_nat k + 1) (text tok) (lemma_ tok)
                             (spacy_pos_to_ptb (tag_ tok) (text tok))
                             (spacy_pos_to_ptb (tag_ tok) (text tok))
                             (ent_type_ tok) (-1) "_" "_" (PyInt (idx tok)))
            (filter (λ tok, is_space tok = false
                            ∧ ¬ (text tok = "-" ∧ tag_ tok = "HYPH"))
                    sentence))
    <$> fst (spacy_annotator s (world env)).
Proof. exact (proj1 (to_conll_str verbose spacy_annotator s env)). Qed.

Lemma imap_conll_ids (l : list Token) :
  ∀ n : nat,
    id <$> imap (λ k, conll_of_token (Z.of_nat (n + k) + 1)) l
    = Z.of_nat <$> seq (S n) (length l).
Proof.
  induction l as [|tok l IH]; intros n; [done|].
  cbn [imap length seq fmap list_fmap]. f_equal.
  - cbn. lia.
  - rewrite <- (IH (S n)). f_equal. apply imap_ext. intros k t _. cbn.
    f_equal. lia.
Qed.

Lemma conll_of_sentence_shape (sentence : list Token) :
  ∃ rest : list ConllEntry,
    conll_of_sentence sentence = root_entry :: rest
    ∧ id <$> rest = Z.of_nat <$> seq 1 (length rest)
    ∧ Forall (λ e, id e ≠ 0 ∧ relation e ≠ "rroot") rest.
Proof.
  unfold conll_of_sentence. eexists. split; [reflexivity | split].
  - rewrite length_imap. apply (imap_conll_ids _ 0).
  - apply Forall_forall. intros e He.
    apply elem_of_lookup_imap in He as (k & tok & -> & _). cbn.
    split; [lia | discriminate].
Qed.

(** C8: every sentence that [to_conll] yields is the synthetic root entry,
    whose fields are the fixed sentinels (id 0, form and lemma "*root*",
    parent id -1, relation "rroot"), followed by entries whose ids are
    1, 2, ..., n in order; none of those is a second root entry. *)
Theorem to_conll_root_and_ids {World : Type} (verbose : bool)
    (spacy_annotator : string → World → list (list Token) * World)
    (text_arg : pyval) (env : Env World) :
  Forall (λ sent : list ConllEntry,
            ∃ rest, sent = root_entry :: rest
                    ∧ id <$> rest = Z.of_nat <$> seq 1 (length rest)
                    ∧ Forall (λ e, id e ≠ 0 ∧ relation e ≠ "rroot") rest)
         (fst (to_conll verbose spacy_annotator text_arg env))
  ∧ id root_entry = 0
  ∧ form root_entry = "*root*"
  ∧ lemma root_entry = "*root*"
  ∧ parent_id root_entry = -1
  ∧ relation root_entry = "rroot".
Proof.
  split; [ | by repeat split].
  destruct text_arg as [ | | | s | ]; try apply Forall_nil_2.
  rewrite (proj1 (to_conll_str verbose spacy_annotator s env)).
  apply Forall_fmap, Forall_forall. intros sentence _.
  apply conll_of_sentence_shape.
Qed.

(** ** The claims about the pipeline driver *)

(** C7: when [doc_text] is not a string, or [show_tok] or [show_doc] is not
    of type [bool], [parse] returns [None] and leaves the world and the
    standard output as they were: neither capability is called; and
    [to_conll] on a [doc_text] that is not a string yields no sentence and
    changes nothing either. *)
Theorem parse_type_gate {World : Type} (verbose : bool)
    (spacy_annotator : string → World → list (list Token) * World)
    (predict_conll : list (list ConllEntry) → World → list (list PredEntry) * World)
    (text_arg show_tok show_doc : pyval) (env : Env World) :
  isinstance_str text_arg = false
  ∨ type_is_bool show_tok = false
  ∨ type_is_bool show_doc = false →
  parse verbose spacy_annotator predict_conll text_arg show_tok show_doc env
  = (None, env)
  ∧ (isinstance_str text_arg = false →
     to_conll verbose spacy_annotator text_arg env = ([], env)).
Proof.
  intros H.
  destruct text_arg, show_tok, show_doc; cbn in *;
    try (split; [reflexivity | intros; first [reflexivity | discriminate]]);
    destruct H as [H | [H | H]]; discriminate.
Qed.

(** C9: when the annotator and the parsing model return values that are
    functions of their arguments, whatever the world, a second call of
    [parse] with the same arguments, made after the first, returns the same
    document; so does a call from any other environment. *)
Theorem parse_deterministic {World : Type} (verbose : bool)
    (spacy_annotator : string → World → list (list Token) * World)
    (predict_conll : list (list ConllEntry) → World → list (list PredEntry) * World)
    (text_arg show_tok show_doc : pyval) (env : Env World) :
  (∀ t w w', fst (spacy_annotator t w) = fst (spacy_annotator t w')) →
  (∀ ss w w', fst (predict_conll ss w) = fst (predict_conll ss w')) →
  let run1 :=
    parse verbose spacy_annotator predict_conll text_arg show_tok show_doc env in
  let run2 :=
    parse verbose spacy_annotator predict_conll text_arg show_tok show_doc
          (snd run1) in
  fst run2 = fst run1
  ∧ ∀ env',
      fst (parse verbose spacy_annotator predict_conll
                 text_arg show_tok show_doc env')
      = fst run1.
Proof.
  intros Ha Hp run1 run2.
  assert (∀ e e',
            fst (parse verbose spacy_annotator predict_conll
                       text_arg show_tok show_doc e)
            = fst (parse verbose spacy_annotator predict_conll
                         text_arg show_tok show_doc e')) as Hdet.
  { intros e e'.
    destruct text_arg as [ | | | s | ]; try reflexivity;
      destruct show_tok as [ | st | | | ]; try reflexivity;
      destruct show_doc as [ | sd | | | ]; try reflexivity.
    rewrite !parse_returns.
    by rewrite (predicted_deterministic verbose spacy_annotator predict_conll
                  s e e' Ha Hp). }
  split; [apply Hdet | intros env'; apply Hdet].
Qed.

Lemma conll_of_whitespace (sentence : list Token) :
  Forall (λ tok, is_space tok = true) sentence →
  conll_of_sentence sentence = [root_entry].
Proof.
  intros H. unfold conll_of_sentence.
  replace (filter kept sentence) with (@nil Token); [done|].
  induction H as [|tok l Hs _ IH]; [done|].
  rewrite filter_cons, decide_False; [exact IH|].
  intros [Hk _]. congruence.
Qed.

Lemma parse_sentence_nil (show_tok : bool) (sent : list PredEntry) :
  parse_sentence show_tok sent = [] ↔ filter nonroot sent = [].
Proof.
  pose proof (parse_sentence_length show_tok sent) as H.
  split; intros E; rewrite E in H; cbn in H.
  - by apply nil_length_inv.
  - by apply nil_length_inv.
Qed.

(** C6: the sentences of the document are the non-empty record lists of the
    predicted sentences, in order; the record list of a sentence is empty
    exactly when the sentence has no non-root token; and, the model returning
    the sentences it was given with its predictions attached, a sentence of
    the annotator that consists of whitespace tokens only comes back with an
    empty record list, so it is left out of the document. *)
Theorem parse_omits_empty_sentences {World : Type} (verbose : bool)
    (spacy_annotator : string → World → list (list Token) * World)
    (predict_conll : list (list ConllEntry) → World → list (list PredEntry) * World)
    (s : string) (show_tok show_doc : bool) (env : Env World) :
  (∃ parsed_doc : CoreNLPDoc,
      fst (parse verbose spacy_annotator predict_conll
                 (PyStr s) (PyBool show_tok) (PyBool show_doc) env)
      = Some parsed_doc
      ∧ sentences parsed_doc
        = filter (λ ps, ps ≠ [])
            (parse_sentence show_tok
               <$> predicted verbose spacy_annotator predict_conll s env))
  ∧ (∀ sent, parse_sentence show_tok sent = [] ↔ filter nonroot sent = [])
  ∧ ((∀ ss w, fmap (M:=list) entry <$> fst (predict_conll ss w) = ss) →
     ∀ (i : nat) (sentence : list Token),
       fst (spacy_annotator s (world env)) !! i = Some sentence →
       Forall (λ tok, is_space tok = true) sentence →
       ∃ sent,
         predicted verbose spacy_annotator predict_conll s env !! i = Some sent
         ∧ parse_sentence show_tok sent = []).
Proof.
  split; [eexists; split; [apply parse_returns | reflexivity] | ].
  split; [apply parse_sentence_nil | ].
  intros Haug i sentence Hi Hspace.
  unfold predicted.
  pose proof (proj1 (to_conll_str verbose spacy_annotator s env)) as Hc.
  destruct (to_conll verbose spacy_annotator (PyStr s) env) as [doc_conll env1].
  cbn [fst] in Hc. specialize (Haug doc_conll (world env1)).
  assert (doc_conll !! i = Some [root_entry]) as Hroot.
  { rewrite Hc, list_lookup_fmap, Hi. cbn. by rewrite conll_of_whitespace. }
  rewrite <- Haug, list_lookup_fmap in Hroot.
  destruct (fst (predict_conll doc_conll (world env1)) !! i) as [sent|] eqn:Es;
    [ | discriminate].
  exists sent. split; [done | ].
  cbn in Hroot. injection Hroot as Hroot.
  destruct sent as [|p [|q sent]]; try discriminate.
  cbn in Hroot. injection Hroot as Hp.
  apply parse_sentence_nil. rewrite filter_cons, filter_nil.
  rewrite decide_False; [done|]. unfold nonroot. rewrite Hp. cbn. tauto.
Qed.

(** The scan with and without the token text: the same governor sets, and
    records that differ by the key "text" alone. *)
Lemma scan_show_tok (l : list PredEntry) :
  scan false l = (fst (scan true l), delete "text" <$> snd (scan true l)).
Proof.
  induction l as [|tok l IH] using rev_ind; [done|].
  rewrite !scan_app, IH. cbn [fold_left].
  destruct (scan true l) as [cg ps]. cbn [fst snd].
  destruct (decide (nonroot tok)) as [Hn | Hn].
  - rewrite !parse_tok_nonroot by done. cbn [fst snd].
    by rewrite fmap_app, emitted_delete_text.
  - by rewrite !parse_tok_root.
Qed.

(** C10: the "len" field of every emitted record is the length of the form
    of its token, with or without [show_tok]; the records built without
    [show_tok] are those built with it less the key "text", which holds the
    form when present; and the two calls of [parse] leave the same
    environment and return documents with the same text whose records
    differ by that key alone. *)
Theorem parse_len_and_show_tok {World : Type} (verbose : bool)
    (spacy_annotator : string → World → list (list Token) * World)
    (predict_conll : list (list ConllEntry) → World → list (list PredEntry) * World)
    (s : string) (show_doc : bool) (env : Env World) :
  (∀ (show_tok : bool) (sent : list PredEntry),
      (λ r : ParsedTok, r !! "len") <$> parse_sentence show_tok sent
      = (λ tok, Some (PyInt (Z.of_nat (String.length (form (entry tok))))))
          <$> filter nonroot sent)
  ∧ (∀ sent : list PredEntry,
        parse_sentence false sent = delete "text" <$> parse_sentence true sent
        ∧ (λ r : ParsedTok, r !! "text") <$> parse_sentence true sent
          = (λ tok, Some (PyStr (form (entry tok)))) <$> filter nonroot sent
        ∧ (λ r : ParsedTok, r !! "text") <$> parse_sentence false sent
          = (λ tok, None) <$> filter nonroot sent)
  ∧ ∃ (doc_with doc_without : CoreNLPDoc) (env' : Env World),
      parse verbose spacy_annotator predict_conll
            (PyStr s) (PyBool true) (PyBool show_doc) env
      = (Some doc_with, env')
      ∧ parse verbose spacy_annotator predict_conll
              (PyStr s) (PyBool false) (PyBool show_doc) env
        = (Some doc_without, env')
      ∧ doc_text doc_without = doc_text doc_with
      ∧ sentences doc_without
        = fmap (M:=list) (delete "text") <$> sentences doc_with.
Proof.
  split; [ | split].
  - intros show_tok sent. apply parse_sentence_map.
    intros cg tok. apply emitted_len.
  - intros sent. split; [ | split].
    + unfold parse_sentence. by rewrite scan_show_tok.
    + apply parse_sentence_map. intros cg tok. apply emitted_text.
    + apply parse_sentence_map. intros cg tok. apply emitted_text.
  - pose proof (parse_returns verbose spacy_annotator predict_conll
                  s true show_doc env) as Ht.
    pose proof (parse_returns verbose spacy_annotator predict_conll
                  s false show_doc env) as Hf.
    pose proof (parse_env verbose spacy_annotator predict_conll
                  s true false show_doc show_doc env) as He.
    destruct (parse _ _ _ _ (PyBool true) _ env) as [rt et].
    destruct (parse _ _ _ _ (PyBool false) _ env) as [rf ef].
    cbn [fst snd] in *. subst.
    eexists _, _, _. split; [reflexivity | split; [reflexivity | ]].
    cbn [doc_text sentences]. split; [reflexivity | ].
    rewrite fmap_filter_nonempty, <- list_fmap_compose. f_equal.
    apply list_fmap_ext. intros _ sent _. cbn.
    unfold parse_sentence. by rewrite scan_show_tok.
Qed.

(** ** The sample instance *)

Lemma sample_predict_augments (ss : list (list ConllEntry)) (w : nat) :
  fmap (M:=list) entry <$> fst (Sample.predict ss w) = ss.
Proof.
  unfold Sample.predict. cbn [fst]. rewrite <- list_fmap_compose.
  rewrite <- (list_fmap_id ss) at 2. apply list_fmap_ext. intros _ sent _.
  cbn. rewrite <- list_fmap_compose. apply list_fmap_id.
Qed.

(** The sample document parses to one sentence of five records; "Jerry"
    hangs on "Tom", as "and" does before it, and "ran" hangs on the root. *)
Example sample_parse :
  (λ d, fmap (M:=list) (λ r : ParsedTok, (r !! "rel", r !! "gov")) <$> sentences d)
    <$> fst (parse false Sample.annotator Sample.predict
                   (PyStr Sample.doc) (PyBool false) (PyBool true) Sample.env0)
  = Some [ [ (Some (PyStr "nsubj"), Some (PyInt 3));
             (Some (PyStr "cc"), Some (PyInt 0));
             (Some (PyStr "conj_and"), Some (PyInt 0));
             (Some (PyStr "root"), Some (PyInt (-1)));
             (Some (PyStr "punct"), Some (PyInt 3)) ] ].
Proof. vm_compute. reflexivity. Qed.

Lemma conj_resolution_scan_witness :
  nonroot Sample.bob
  ∧ ∃ r : ParsedTok,
      parse_sentence true (Sample.or_ann ++ [Sample.bob])
        !! length (filter nonroot Sample.or_ann) = Some r
      ∧ r !! "rel" = Some (PyStr "conj_and_or").
Proof.
  assert (nonroot Sample.bob) as Hn by (intros H; discriminate H).
  split; [exact Hn | ].
  destruct (conj_resolution_scan true Sample.or_ann [] Sample.bob Hn)
    as (_ & _ & _ & _ & r & Hr & _ & Hboth).
  exists r. split; [exact Hr | ].
  apply Hboth; [reflexivity | | ]; apply (bool_decide_unpack _); vm_compute; exact I.
Defined.

Lemma conj_forward_reference_witness :
  nonroot Sample.jerry
  ∧ pred_relation Sample.jerry = "conj"
  ∧ conj_word "or" (Sample.pe 2 "or" 4 "cc")
  ∧ ∃ r : ParsedTok,
      parse_sentence true ([Sample.pe_root] ++ Sample.jerry :: Sample.or_tom_ran)
        !! length (filter nonroot [Sample.pe_root]) = Some r
      ∧ r !! "rel" = Some (PyStr "conj").
Proof.
  assert (nonroot Sample.jerry) as Hn by (intros H; discriminate H).
  split; [exact Hn | ]. split; [reflexivity | ].
  split; [split; [intros H; discriminate H | reflexivity] | ].
  apply (conj_forward_reference true [Sample.pe_root] Sample.or_tom_ran
           Sample.jerry Hn eq_refl).
  repeat constructor; intros [H | H]; discriminate H.
Defined.

Lemma parse_omits_empty_sentences_witness :
  Forall (λ tok, is_space tok = true) [mkToken "  " "_SP" "  " "" 18 true]
  ∧ (∃ sent,
        predicted false Sample.annotator Sample.predict Sample.doc Sample.env0
          !! 1%nat = Some sent
        ∧ parse_sentence true sent = [])
  ∧ ∃ parsed_doc,
      fst (parse false Sample.annotator Sample.predict
                 (PyStr Sample.doc) (PyBool true) (PyBool true) Sample.env0)
      = Some parsed_doc
      ∧ length (fst (Sample.annotator Sample.doc 0%nat)) = 2%nat
      ∧ length (sentences parsed_doc) = 1%nat.
Proof.
  assert (Forall (λ tok, is_space tok = true) [mkToken "  " "_SP" "  " "" 18 true])
    as Hs by (repeat constructor).
  destruct (parse_omits_empty_sentences false Sample.annotator Sample.predict
              Sample.doc true true Sample.env0)
    as ((parsed_doc & Hdoc & Hsents) & _ & Hskip).
  split; [exact Hs | split].
  - exact (Hskip sample_predict_augments 1%nat _ eq_refl Hs).
  - exists parsed_doc. split; [exact Hdoc | split; [reflexivity | ]].
    rewrite Hsents. vm_compute. reflexivity.
Defined.

Lemma parse_type_gate_witness :
  (isinstance_str (PyInt 42) = false
   ∨ type_is_bool (PyInt 1) = false
   ∨ type_is_bool (PyBool true) = false)
  ∧ parse false Sample.annotator Sample.predict
          (PyInt 42) (PyInt 1) (PyBool true) Sample.env0
    = (None, Sample.env0)
  ∧ to_conll false Sample.annotator (PyInt 42) Sample.env0 = ([], Sample.env0).
Proof.
  assert (isinstance_str (PyInt 42) = false
          ∨ type_is_bool (PyInt 1) = false
          ∨ type_is_bool (PyBool true) = false) as H by (left; reflexivity).
  split; [exact H | ].
  destruct (parse_type_gate false Sample.annotator Sample.predict
              (PyInt 42) (PyInt 1) (PyBool true) Sample.env0 H) as [Hp Hc].
  split; [exact Hp | exact (Hc eq_refl)].
Defined.

Lemma parse_deterministic_witness :
  (∀ t w w', fst (Sample.annotator t w) = fst (Sample.annotator t w'))
  ∧ (∀ ss w w', fst (Sample.predict ss w) = fst (Sample.predict ss w'))
  ∧ world (snd (parse true Sample.annotator Sample.predict
                      (PyStr Sample.doc) (PyBool true) (PyBool true) Sample.env0))
    = 2%nat
  ∧ fst (parse true Sample.annotator Sample.predict
               (PyStr Sample.doc) (PyBool true) (PyBool true)
               (snd (parse true Sample.annotator Sample.predict
                           (PyStr Sample.doc) (PyBool true) (PyBool true)
                           Sample.env0)))
    = fst (parse true Sample.annotator Sample.predict
                 (PyStr Sample.doc) (PyBool true) (PyBool true) Sample.env0).
Proof.
  assert (∀ t w w', fst (Sample.annotator t w) = fst (Sample.annotator t w'))
    as Ha by (intros; reflexivity).
  assert (∀ ss w w', fst (Sample.predict ss w) = fst (Sample.predict ss w'))
    as Hp by (intros; reflexivity).
  split; [exact Ha | split; [exact Hp | split; [reflexivity | ]]].
  exact (proj1 (parse_deterministic true Sample.annotator Sample.predict
                  (PyStr Sample.doc) (PyBool true) (PyBool true) Sample.env0
                  Ha Hp)).
Defined.

(** * Further properties *)

(** ** The tag normaliser *)

Lemma spacy_pos_to_ptb_eq (pos text r : string) :
  ptb_rule pos text r → spacy_pos_to_ptb pos text = r.
Proof.
  intros H. symmetry. eapply ptb_rule_functional; [exact H | ].
  apply spacy_pos_to_ptb_rule.
Qed.

Ltac not_listed H :=
  repeat (apply elem_of_cons in H as [H | H]; [try discriminate H | ]);
  try (by apply elem_of_nil in H).

Lemma ptb_rule_not_spacy_only (pos text r : string) :
  ptb_rule pos text r → r ∉ ["AFX"; "ADD"; "NFP"; "HYPH"; "XX"].
Proof.
  intros Hrule Hin.
  destruct Hrule as [ | | | | ? ? ? ? ? Hp | | ? ? ? ? ? Hs ];
    try (not_listed Hin; fail).
  - unfold punct_forms in Hp.
    not_listed Hp; subst text; not_listed Hin.
  - unfold symbol_tags in Hs.
    repeat (apply elem_of_cons in Hin as [Hin | Hin]; [try congruence | ]).
    + apply Hs. subst pos. set_solver+.
    + apply Hs. subst pos. set_solver+.
    + apply Hs. subst pos. set_solver+.
    + by apply elem_of_nil in Hin.
Qed.

(** X1: the tags peculiar to the annotator never come out of the normaliser:
    whatever the tag and the text, the result is none of AFX, ADD, NFP, HYPH
    and XX. *)
Theorem spacy_pos_to_ptb_never_spacy_only (pos text : string) :
  spacy_pos_to_ptb pos text ∉ ["AFX"; "ADD"; "NFP"; "HYPH"; "XX"].
Proof.
  pose proof (spacy_pos_to_ptb_rule pos text) as Hrule.
  revert Hrule. generalize (spacy_pos_to_ptb pos text) as r.
  intros r Hrule. by eapply ptb_rule_not_spacy_only.
Qed.

Lemma ptb_rule_punct_form (pos text : string) :
  text ∈ punct_forms → pos ≠ "AFX" → pos ≠ "ADD" → ptb_rule pos text text.
Proof.
  intros Hp Hafx Hadd.
  assert (text ≠ "..." ∧ text ≠ "*") as [H1 H2].
  { unfold punct_forms in Hp. split; intros ->; not_listed Hp. }
  destruct (decide (pos = text)) as [-> | Hne].
  - apply rule_identity; try done; [tauto | ].
    intros Hs. unfold punct_forms in Hp. unfold symbol_tags in Hs.
    not_listed Hp; subst text; not_listed Hs.
  - by apply rule_punct.
Qed.

(** X2: a punctuation form is its own tag: for a text among the six listed
    forms the result is the text, whatever the tag, unless the tag is AFX
    or ADD. *)
Theorem spacy_pos_to_ptb_punct_form (pos text : string) :
  text ∈ punct_forms → pos ≠ "AFX" → pos ≠ "ADD" →
  spacy_pos_to_ptb pos text = text.
Proof.
  intros Hp Hafx Hadd.
  eapply ptb_rule_functional; [apply spacy_pos_to_ptb_rule | ].
  by apply ptb_rule_punct_form.
Qed.

Lemma spacy_pos_to_ptb_punct_form_witness :
  "," ∈ punct_forms ∧ "NN" ≠ "AFX" ∧ "NN" ≠ "ADD"
  ∧ spacy_pos_to_ptb "NN" "," = ",".
Proof.
  assert ("," ∈ punct_forms) as Hp by (unfold punct_forms; set_solver+).
  assert ("NN" ≠ "AFX") as H1 by discriminate.
  assert ("NN" ≠ "ADD") as H2 by discriminate.
  split; [exact Hp | split; [exact H1 | split; [exact H2 | ]]].
  exact (spacy_pos_to_ptb_punct_form "NN" "," Hp H1 H2).
Defined.

Lemma punct_forms_plain (text : string) :
  text ∈ punct_forms →
  text ≠ "..." ∧ text ≠ "*" ∧ text ≠ "AFX" ∧ text ≠ "ADD" ∧ text ≠ "JJ"
  ∧ text ≠ "NN" ∧ text ≠ "SYM" ∧ text ∉ symbol_tags.
Proof.
  unfold punct_forms, symbol_tags. intros Hp.
  repeat split; try (intros ->; not_listed Hp; fail).
  intros Hs. not_listed Hp; subst text; not_listed Hs.
Qed.

(** A tag outside the rules' tag tests is kept when the text is no
    punctuation form, ellipsis or star. *)
Lemma spacy_pos_to_ptb_keeps (pos text : string) :
  text ≠ "..." → text ≠ "*" → text ∉ punct_forms →
  pos ≠ "AFX" → pos ≠ "ADD" → pos ∉ symbol_tags →
  spacy_pos_to_ptb pos text = pos.
Proof.
  intros. apply spacy_pos_to_ptb_eq, rule_identity; try done. tauto.
Qed.

(** X3: normalising a normalised tag against the same text changes nothing,
    except when the original tag is AFX or ADD and the text is a punctuation
    form: the first pass then answers JJ or NN by rule 3 or 4, and the
    second answers the text by rule 5. *)
Theorem spacy_pos_to_ptb_twice (pos text : string) :
  spacy_pos_to_ptb (spacy_pos_to_ptb pos text) text = spacy_pos_to_ptb pos text
  ↔ ¬ ((pos = "AFX" ∨ pos = "ADD") ∧ text ∈ punct_forms).
Proof.
  assert (("JJ" ∉ symbol_tags) ∧ ("NN" ∉ symbol_tags) ∧ ("SYM" ∉ symbol_tags))
    as (Hjj & Hnn & Hsym)
    by (unfold symbol_tags; repeat split; intros H; not_listed H).
  destruct (spacy_pos_to_ptb_rule pos text)
    as [ E | ? E | ? ? E | ? ? ? E | ? ? ? ? ? Hp | ? ? ? ? Hn Hs | ? ? ? ? Hn Hs ].
  - rewrite (spacy_pos_to_ptb_eq _ _ _ (rule_ellipsis _ _ E)).
    split; [ | done]. intros _ [_ Hp].
    by destruct (punct_forms_plain _ Hp) as (? & _).
  - rewrite (spacy_pos_to_ptb_eq _ _ _ (rule_star _ _ ltac:(done) E)).
    split; [ | done]. intros _ [_ Hp].
    by destruct (punct_forms_plain _ Hp) as (_ & ? & _).
  - destruct (decide (text ∈ punct_forms)) as [Hp | Hp].
    + rewrite (spacy_pos_to_ptb_eq _ text text) by (by apply ptb_rule_punct_form).
      destruct (punct_forms_plain _ Hp) as (_ & _ & _ & _ & ? & _).
      split; [done | ]. intros Hc. exfalso. apply Hc. tauto.
    + rewrite spacy_pos_to_ptb_keeps by done. split; [ | done]. tauto.
  - destruct (decide (text ∈ punct_forms)) as [Hp | Hp].
    + rewrite (spacy_pos_to_ptb_eq _ text text) by (by apply ptb_rule_punct_form).
      destruct (punct_forms_plain _ Hp) as (_ & _ & _ & _ & _ & ? & _).
      split; [done | ]. intros Hc. exfalso. apply Hc. tauto.
    + rewrite spacy_pos_to_ptb_keeps by done. split; [ | done]. tauto.
  - destruct (punct_forms_plain _ Hp) as (_ & _ & ? & ? & _).
    rewrite (spacy_pos_to_ptb_eq _ text text) by (by apply ptb_rule_punct_form). split; [ | done]. tauto.
  - assert (text ∉ punct_forms) as Hp.
    { intros Hp. destruct (punct_forms_plain _ Hp) as (_ & _ & _ & _ & _ & _ & _ & Hns).
      destruct (decide (pos = text)) as [-> | Hne]; [done | tauto]. }
    rewrite spacy_pos_to_ptb_keeps by done. split; [ | done]. tauto.
  - rewrite (spacy_pos_to_ptb_eq pos text pos) by (by apply rule_identity).
    split; [ | done]. tauto.
Qed.

(** ** What the tabular conversion prints and changes *)

Section ToConllEffects.

Context {World : Type}.
Variable verbose : bool.
Variable spacy_annotator : string → World → list (list Token) * World.

Lemma to_conll_tokens_snd (sentence : list Token) :
  ∀ (acc : list ConllEntry) (i : Z) (env : Env World),
    snd (to_conll_tokens verbose sentence acc i env)
    = mkEnv (world env)
            (stdout env
             ++ if verbose
                then (λ tok, text tok +:+ tab +:+ tag_ tok) <$> sentence
                else []).
Proof.
  induction sentence as [|tok rest IH]; intros acc i env.
  - cbn. destruct env, verbose; cbn; by rewrite app_nil_r.
  - cbn [to_conll_tokens]. unfold bind at 1.
    assert (snd (when verbose (print (text tok +:+ tab +:+ tag_ tok)) env)
            = mkEnv (world env)
                    (stdout env
                     ++ if verbose then [text tok +:+ tab +:+ tag_ tok] else []))
      as Hw.
    { destruct verbose, env; cbn; [done | by rewrite app_nil_r]. }
    destruct (when verbose _ env) as [[] env']. cbn [snd] in Hw. subst env'.
    assert (∀ acc' i',
              snd (to_conll_tokens verbose rest acc' i'
                     (mkEnv (world env)
                        (stdout env
                         ++ if verbose then [text tok +:+ tab +:+ tag_ tok] else [])))
              = mkEnv (world env)
                  (stdout env
                   ++ if verbose
                      then (λ tok, text tok +:+ tab +:+ tag_ tok) <$> (tok :: rest)
                      else [])) as Hrest.
    { intros acc' i'. rewrite IH. cbn [world stdout].
      destruct verbose; cbn; by rewrite <- app_assoc. }
    destruct (negb (is_space tok)); [ | apply Hrest].
    destruct (negb (text tok =? "-") || negb (tag_ tok =? "HYPH")); apply Hrest.
Qed.

Lemma for_each_print_snd {A : Type} (f : A → string) (l : list A) :
  ∀ env : Env World,
    snd (for_each (λ x, print (f x)) l env)
    = mkEnv (world env) (stdout env ++ (f <$> l)).
Proof.
  induction l as [|x l IH]; intros env.
  - cbn. destruct env; cbn. by rewrite app_nil_r.
  - cbn [for_each]. unfold bind, print at 1. rewrite IH. cbn.
    by rewrite <- app_assoc.
Qed.

Lemma to_conll_sentence_snd (sentence : list Token) (env : Env World) :
  snd (to_conll_sentence verbose sentence env)
  = mkEnv (world env)
          (stdout env ++ if verbose then sentence_log sentence else []).
Proof.
  unfold to_conll_sentence, bind.
  pose proof (to_conll_tokens_fst verbose sentence [root_entry] 0 env) as H1.
  pose proof (to_conll_tokens_snd sentence [root_entry] 0 env) as H2.
  destruct (to_conll_tokens verbose sentence [root_entry] 0 env) as [sc env1].
  cbn [fst snd] in H1, H2. subst env1.
  assert (sc = conll_of_sentence sentence) as -> by (by rewrite H1).
  destruct verbose; cbn [when ret snd]; [ | by rewrite !app_nil_r].
  unfold print at 1. cbn [world stdout].
  pose proof (for_each_print_snd
    (λ e, str_of_int (id e) +:+ tab +:+ form e +:+ tab +:+ pos e +:+ tab)
    (conll_of_sentence sentence)
    (mkEnv (world env)
       ((stdout env ++ ((λ tok, text tok +:+ tab +:+ tag_ tok) <$> sentence))
        ++ ["-----------------------" +:+ newline +:+ "input conll form:"])))
    as Hf.
  destruct (for_each _ _ _) as [[] env2]. cbn [snd] in *. subst env2.
  cbn [world stdout]. unfold sentence_log. by rewrite <- !app_assoc.
Qed.

Lemma yield_each_to_conll_sentence_snd (sents : list (list Token)) :
  ∀ env : Env World,
    snd (yield_each (to_conll_sentence verbose) sents env)
    = mkEnv (world env)
            (stdout env
             ++ if verbose then concat (sentence_log <$> sents) else []).
Proof.
  induction sents as [|sentence sents IH]; intros env.
  - cbn. destruct env, verbose; cbn; by rewrite app_nil_r.
  - cbn [yield_each]. unfold bind.
    pose proof (to_conll_sentence_snd sentence env) as H1.
    destruct (to_conll_sentence verbose sentence env) as [sc env1].
    cbn [snd] in H1. subst env1.
    specialize (IH (mkEnv (world env)
                      (stdout env ++ if verbose then sentence_log sentence else []))).
    destruct (yield_each _ sents _) as [scs env2]. cbn [snd] in *. subst env2.
    cbn [world stdout]. destruct verbose; cbn; by rewrite <- app_assoc.
Qed.

(** X4: [to_conll] on a string calls the annotator once, on the text, and
    changes the world in no other way; it prints nothing unless
    [self.verbose] holds, and then, after what was printed before, for each
    sentence in turn: a line per token of the sentence, dropped tokens
    included, with the raw tag; the header; and a line per tabular entry, the
    root included, with the normalised tag. *)
Theorem to_conll_effects (s : string) (env : Env World) :
  snd (to_conll verbose spacy_annotator (PyStr s) env)
  = mkEnv (snd (spacy_annotator s (world env)))
          (stdout env
           ++ if verbose
              then concat (sentence_log <$> fst (spacy_annotator s (world env)))
              else []).
Proof.
  unfold to_conll, bind, call.
  destruct (spacy_annotator s (world env)) as [sents w1]. cbn [fst snd].
  apply (yield_each_to_conll_sentence_snd sents (mkEnv w1 (stdout env))).
Qed.

End ToConllEffects.

(** X5: every entry after the root carries the same normalised tag in both tag
    fields, never one of the annotator's own tags; its gold head and
    relation are the placeholders -1 and "_"; its offset is an integer; and
    there is one tabular sentence per sentence of the annotator, a sentence
    without surviving tokens included. *)
Theorem to_conll_entry_fields {World : Type} (verbose : bool)
    (spacy_annotator : string → World → list (list Token) * World)
    (s : string) (env : Env World) :
  length (fst (to_conll verbose spacy_annotator (PyStr s) env))
  = length (fst (spacy_annotator s (world env)))
  ∧ Forall (λ sent : list ConllEntry,
              ∃ rest, sent = root_entry :: rest
                ∧ Forall (λ e, pos e = cpos e
                               ∧ (pos e ∉ ["AFX"; "ADD"; "NFP"; "HYPH"; "XX"])
                               ∧ parent_id e = -1
                               ∧ relation e = "_"
                               ∧ deps e = "_"
                               ∧ ∃ i, misc e = PyInt i) rest)
           (fst (to_conll verbose spacy_annotator (PyStr s) env)).
Proof.
  rewrite (proj1 (to_conll_str verbose spacy_annotator s env)).
  split; [apply length_fmap | ].
  apply Forall_fmap, Forall_forall. intros sentence _. cbn.
  unfold conll_of_sentence. eexists. split; [reflexivity | ].
  apply Forall_forall. intros e He.
  apply elem_of_lookup_imap in He as (k & tok & -> & _). cbn.
  split; [done | ].
  split; [apply (ptb_rule_not_spacy_only (tag_ tok) (text tok)),
                spacy_pos_to_ptb_rule | ].
  repeat split. by eexists.
Qed.

(** ** More on the records of a sentence *)

Section Records.

Variable show_tok : bool.

Lemma parse_sentence_Forall (P : ParsedTok → Prop) (l : list PredEntry) :
  (∀ cg tok, nonroot tok → P (emitted show_tok cg tok)) →
  Forall P (parse_sentence show_tok l).
Proof.
  intros HP. unfold parse_sentence.
  induction l as [|tok l IH] using rev_ind; [by apply Forall_nil_2 | ].
  rewrite scan_app. cbn [fold_left].
  destruct (scan show_tok l) as [cg ps]. cbn [snd] in IH.
  destruct (decide (nonroot tok)) as [Hn | Hn].
  - rewrite parse_tok_nonroot by done. cbn [snd].
    apply Forall_app. split; [exact IH | ]. apply Forall_singleton. by apply HP.
  - by rewrite parse_tok_root.
Qed.

Lemma emitted_dom (cg : ConjGovernors) (tok : PredEntry) :
  dom (emitted show_tok cg tok)
  = ({[ "start"; "len"; "pos"; "ner"; "lemma"; "gov"; "rel" ]} : gset string)
    ∪ (if show_tok then {[ "text" ]} else ∅).
Proof.
  unfold emitted, parsed_tok_new. destruct show_tok;
    rewrite !dom_insert_L, dom_empty_L; set_solver+.
Qed.

(** X6: the keys of every record are start, len, pos, ner, lemma, gov and rel,
    and text besides exactly when [show_tok] holds. *)
Theorem parse_sentence_keys (sent : list PredEntry) :
  Forall (λ r : ParsedTok,
            dom r
            = ({[ "start"; "len"; "pos"; "ner"; "lemma"; "gov"; "rel" ]} : gset string)
              ∪ (if show_tok then {[ "text" ]} else ∅))
         (parse_sentence show_tok sent).
Proof. apply parse_sentence_Forall. intros cg tok _. apply emitted_dom. Qed.

(** X7: the scan is on line: the records of a prefix of the sentence are a
    prefix of the records of the sentence, so no token changes the record of
    a token before it. *)
Theorem parse_sentence_prefix (pre post : list PredEntry) :
  parse_sentence show_tok pre `prefix_of` parse_sentence show_tok (pre ++ post).
Proof.
  unfold parse_sentence. rewrite scan_app.
  destruct (scan show_tok pre) as [cg ps]. rewrite scan_from_snd. cbn [snd].
  by eexists.
Qed.

(** X8: for a non-root token with relation "conj": its record carries "_and"
    exactly when a non-root token whose lowercased form is "and" and whose
    governor is the same stands at or before it in the sentence, and "_or"
    exactly when such an "or" does. *)
Theorem conj_suffix_iff (pre post : list PredEntry) (tok : PredEntry) :
  nonroot tok →
  pred_relation tok = "conj" →
  ∃ r : ParsedTok,
    parse_sentence show_tok (pre ++ tok :: post) !! length (filter nonroot pre)
    = Some r
    ∧ (r !! "rel" = Some (PyStr "conj_and") ∨ r !! "rel" = Some (PyStr "conj_and_or")
       ↔ Exists (λ t, conj_word "and" t ∧ pred_parent_id t = pred_parent_id tok)
                (pre ++ [tok]))
    ∧ (r !! "rel" = Some (PyStr "conj_or") ∨ r !! "rel" = Some (PyStr "conj_and_or")
       ↔ Exists (λ t, conj_word "or" t ∧ pred_parent_id t = pred_parent_id tok)
                (pre ++ [tok])).
Proof.
  intros Hn Hr.
  exists (emitted show_tok (fst (scan show_tok pre)) tok).
  split; [by apply parse_sentence_lookup | ].
  rewrite emitted_rel, <- (scan_register show_tok pre tok Hn).
  destruct (scan_governors show_tok (pre ++ [tok])) as [Hand Hor].
  assert (∀ w,
            pred_parent_id tok
            ∈@{gset Z} list_to_set (pred_parent_id <$> filter (conj_word w) (pre ++ [tok]))
            ↔ Exists (λ t, conj_word w t ∧ pred_parent_id t = pred_parent_id tok)
                     (pre ++ [tok])) as Hin.
  { intros w. rewrite elem_of_list_to_set, list_elem_of_fmap, Exists_exists.
    split.
    - intros (t & Hg & Ht). apply list_elem_of_filter in Ht as [Hw Ht].
      exists t. split; [exact Ht | split; [exact Hw | by rewrite Hg]].
    - intros (t & Ht & Hw & Hg). exists t. split; [by rewrite Hg | ].
      by apply list_elem_of_filter. }
  unfold resolve. rewrite (decide_True _ _ Hr), Hand, Hor.
  rewrite <- !Hin.
  split; repeat case_decide; cbn; split;
    solve [ intros [H' | H']; first [discriminate H' | done]
          | intros; tauto | intros _; auto ].
Qed.

End Records.

(** ** More on the document *)

Lemma concat_filter_nonempty {A : Type} (L : list (list A)) :
  concat (filter (λ l, l ≠ []) L) = concat L.
Proof.
  induction L as [|l L IH]; [done|].
  rewrite filter_cons. destruct l as [|x l].
  - by rewrite decide_False by (intros H; by apply H).
  - rewrite decide_True by done. cbn. by rewrite IH.
Qed.

Lemma parse_sentence_concat_length (show_tok : bool) (P : list (list PredEntry)) :
  length (concat (parse_sentence show_tok <$> P))
  = length (filter nonroot (concat P)).
Proof.
  induction P as [|sent P IH]; [done|].
  cbn [fmap list_fmap concat]. rewrite filter_app, !length_app, IH.
  by rewrite parse_sentence_length.
Qed.

(** The part of a record that does not come from the model. *)
Lemma emitted_token_record (show_tok : bool) (cg : ConjGovernors)
    (p : PredEntry) (i : Z) (tok : Token) :
  entry p = conll_of_token i tok →
  delete "gov" (delete "rel" (emitted show_tok cg p)) = token_record show_tok tok.
Proof.
  destruct p as [e g r]. cbn [entry]. intros ->.
  unfold emitted, token_record, parsed_tok_new. cbn [entry conll_of_token misc
    form pos feats lemma pred_parent_id].
  apply map_eq. intros k.
  destruct show_tok;
    repeat (rewrite ?lookup_delete, ?lookup_insert; case_decide; subst; try done).
Qed.

Lemma records_of_entries (show_tok : bool) (l : list Token) :
  ∀ (ps : list PredEntry) (c : nat → Token → ConllEntry),
    (∀ k tok, ∃ i, c k tok = conll_of_token i tok) →
    entry <$> ps = imap c l →
    (λ r : ParsedTok, delete "gov" (delete "rel" r)) <$> parse_sentence show_tok ps
    = token_record show_tok <$> filter (λ tok, text tok ≠ "*root*") l.
Proof.
  intros ps c Hc Hps.
  rewrite (parse_sentence_map show_tok _
             (λ p, delete "gov" (delete "rel" (emitted show_tok conj_governors_new p))));
    [ | intros cg [e g r]; unfold emitted, parsed_tok_new; cbn [entry pred_parent_id];
        apply map_eq; intros k;
        destruct show_tok;
        repeat (rewrite ?lookup_delete, ?lookup_insert; case_decide; subst; try done) ].
  revert ps c Hc Hps. induction l as [|tok l IH]; intros ps c Hc Hps.
  - apply fmap_nil_inv in Hps. by subst ps.
  - destruct ps as [|p ps]; [discriminate | ].
    rewrite imap_cons in Hps. cbn [fmap list_fmap] in Hps.
    injection Hps as Hp Hps.
    destruct (Hc 0%nat tok) as [i Hi]. rewrite Hi in Hp.
    rewrite !filter_cons.
    assert (nonroot p ↔ text tok ≠ "*root*") as Hnr
      by (unfold nonroot; by rewrite Hp).
    specialize (IH ps (c ∘ S) (λ k t, Hc (S k) t) Hps).
    destruct (decide (nonroot p)) as [Hn | Hn].
    + rewrite decide_True by (by apply Hnr). cbn [fmap list_fmap].
      f_equal; [by eapply emitted_token_record | exact IH].
    + rewrite decide_False by (by rewrite <- Hnr). exact IH.
Qed.

Section Document.

Context {World : Type}.
Variable verbose : bool.
Variable spacy_annotator : string → World → list (list Token) * World.
Variable predict_conll :
  list (list ConllEntry) → World → list (list PredEntry) * World.

(** X10: when the model returns the sentences it was given with its predictions
    attached, the records of the document, their "gov" and "rel" apart, are
    those of the annotator's tokens that survive the filter of [to_conll]
    and are not spelled "*root*", sentence by sentence and in order: offset,
    length of the text, normalised tag, entity type, lemma, and the text
    when [show_tok] holds.  A token spelled "*root*" gets a tabular entry
    but no record. *)
Theorem parse_token_fields (s : string) (show_tok show_doc : bool)
    (env : Env World) :
  (∀ ss w, fmap (M:=list) entry <$> fst (predict_conll ss w) = ss) →
  ∃ parsed_doc : CoreNLPDoc,
    fst (parse verbose spacy_annotator predict_conll
               (PyStr s) (PyBool show_tok) (PyBool show_doc) env)
    = Some parsed_doc
    ∧ fmap (M:=list) (λ r : ParsedTok, delete "gov" (delete "rel" r))
        <$> sentences parsed_doc
      = filter (λ l, l ≠ [])
          ((λ sentence, token_record show_tok <$> filter surfaces sentence)
             <$> fst (spacy_annotator s (world env))).
Proof.
  intros Haug. eexists. split; [apply parse_returns | ]. cbn [sentences].
  rewrite fmap_filter_nonempty. f_equal.
  unfold predicted.
  pose proof (proj1 (to_conll_str verbose spacy_annotator s env)) as Hc.
  destruct (to_conll verbose spacy_annotator (PyStr s) env) as [doc_conll env1].
  cbn [fst] in Hc. specialize (Haug doc_conll (world env1)).
  set (P := fst (predict_conll doc_conll (world env1))) in *. clearbody P.
  rewrite Hc in Haug. clear Hc.
  change (fmap (M:=list) entry <$> P
          = conll_of_sentence <$> fst (spacy_annotator s (world env))) in Haug.
  revert P Haug.
  generalize (fst (spacy_annotator s (world env))) as sents.
  induction sents as [|sentence sents IH]; intros P HP.
  - destruct P; [done | discriminate].
  - destruct P as [|sent P]; [discriminate | ].
    cbn [fmap list_fmap] in HP. injection HP as Hsent HP.
    cbn [fmap list_fmap]. f_equal; [ | by apply IH].
    unfold conll_of_sentence in Hsent.
    destruct sent as [|p0 ps]; [discriminate | ].
    cbn [fmap list_fmap] in Hsent. injection Hsent as Hp0 Hps.
    assert (parse_sentence show_tok (p0 :: ps) = parse_sentence show_tok ps) as ->.
    { unfold parse_sentence, scan. cbn [fold_left].
      rewrite parse_tok_root; [done | ]. unfold nonroot. rewrite Hp0. cbn. tauto. }
    rewrite (records_of_entries show_tok (filter kept sentence) ps _
               (λ k tok, ex_intro _ _ eq_refl) Hps).
    rewrite list_filter_filter. f_equal.
    apply list_filter_iff. intros tok. unfold surfaces. tauto.
Qed.

(** X11: [show_doc] decides the text of the document and nothing else: with it
    the document holds the text, without it none, and the sentences and the
    environment left behind are the same. *)
Theorem parse_show_doc (s : string) (show_tok : bool) (env : Env World) :
  ∃ (doc_with doc_without : CoreNLPDoc) (env' : Env World),
    parse verbose spacy_annotator predict_conll
          (PyStr s) (PyBool show_tok) (PyBool true) env
    = (Some doc_with, env')
    ∧ parse verbose spacy_annotator predict_conll
            (PyStr s) (PyBool show_tok) (PyBool false) env
      = (Some doc_without, env')
    ∧ doc_text doc_with = Some s
    ∧ doc_text doc_without = None
    ∧ sentences doc_with = sentences doc_without.
Proof.
  pose proof (parse_returns verbose spacy_annotator predict_conll
                s show_tok true env) as Ht.
  pose proof (parse_returns verbose spacy_annotator predict_conll
                s show_tok false env) as Hf.
  pose proof (parse_env verbose spacy_annotator predict_conll
                s show_tok show_tok true false env) as He.
  destruct (parse _ _ _ _ _ (PyBool true) env) as [rt et].
  destruct (parse _ _ _ _ _ (PyBool false) env) as [rf ef].
  cbn [fst snd] in *. subst. by eexists _, _, _.
Qed.


(** X13: leaving out the empty sentences loses no record: the records of the
    document, taken together, are those of all the predicted sentences, one
    per non-root entry the model returned. *)
Theorem parse_keeps_all_records (s : string) (show_tok show_doc : bool)
    (env : Env World) :
  ∃ parsed_doc : CoreNLPDoc,
    fst (parse verbose spacy_annotator predict_conll
               (PyStr s) (PyBool show_tok) (PyBool show_doc) env)
    = Some parsed_doc
    ∧ concat (sentences parsed_doc)
      = concat (parse_sentence show_tok
                  <$> predicted verbose spacy_annotator predict_conll s env)
    ∧ length (concat (sentences parsed_doc))
      = length (filter nonroot
                  (concat (predicted verbose spacy_annotator predict_conll s env)))
    ∧ Forall (λ ps, ps ≠ []) (sentences parsed_doc).
Proof.
  eexists. split; [apply parse_returns | ]. cbn [sentences].
  rewrite concat_filter_nonempty.
  split; [done | split; [apply parse_sentence_concat_length | ]].
  apply Forall_forall. intros ps Hps. by apply list_elem_of_filter in Hps as [? _].
Qed.

End Document.

(** ** Construction and model download *)

Section ConstructionFacts.

Context {World BISTModel Language : Type}.
Variable path_join : list string → string.
Variable dir : string.
Variable isfile : string → World → bool.
Variable download_file : string → string → string → World → outcome unit * World.
Variable unzip_file : string → string → World → outcome unit * World.
Variable BISTModel_new : World → outcome BISTModel * World.
Variable BISTModel_load : BISTModel → string → World → outcome unit * World.
Variable spacy_load : model_ref → World → outcome Language * World.
Variable BISTModel_predict_conll :
  BISTModel → list (list ConllEntry) → World → list (list PredEntry) * World.
Variable Language_call : Language → string → World → list (list Token) * World.

Lemma download_pretrained_model_cached (env : Env World) :
  isfile (pretrained path_join dir) (world env) = true →
  download_pretrained_model path_join dir isfile download_file unzip_file env
  = (Return tt, env).
Proof.
  unfold download_pretrained_model, pretrained. intros H. by rewrite H.
Qed.

(** X14: a first call that finds no model file announces the download, fetches
    the archive, announces the extraction, extracts and reports, in this
    order; when the extraction has produced the model file, a second call
    does nothing at all. *)
Theorem download_pretrained_model_once (env : Env World) (w1 w2 : World) :
  isfile (pretrained path_join dir) (world env) = false →
  download_file "https://s3-us-west-1.amazonaws.com/nervana-modelzoo/parse/"
                "bist-pretrained.zip" (path_join [dir; "bist-pretrained.zip"])
                (world env)
  = (Return tt, w1) →
  unzip_file (path_join [dir; "bist-pretrained.zip"]) dir w1 = (Return tt, w2) →
  isfile (pretrained path_join dir) w2 = true →
  let env' :=
    mkEnv w2 (stdout env ++ ["Downloading pre-trained BIST model...";
                             "Unzipping..."; "Done."]) in
  download_pretrained_model path_join dir isfile download_file unzip_file env
  = (Return tt, env')
  ∧ download_pretrained_model path_join dir isfile download_file unzip_file env'
    = (Return tt, env').
Proof.
  intros Habsent Hd Hu Hpresent env'.
  split; [ | by apply download_pretrained_model_cached].
  unfold download_pretrained_model, pretrained in *. rewrite Habsent.
  unfold bindE, liftE, calling, print, retE, ret. cbn.
  rewrite Hd. cbn. rewrite Hu. cbn. unfold env'.
  by rewrite <- !app_assoc.
Qed.

(** X15: when no model path is given, the model file is absent and the download
    raises, the constructor raises the same exception after its two
    announcements: nothing is extracted and no model is loaded. *)
Theorem init_download_failure (verbose : bool) (spacy_model : model_ref)
    (bist_model : option string) (env : Env World) (e : exn) (w1 : World) :
  truthy bist_model = false →
  isfile (pretrained path_join dir) (world env) = false →
  download_file "https://s3-us-west-1.amazonaws.com/nervana-modelzoo/parse/"
                "bist-pretrained.zip" (path_join [dir; "bist-pretrained.zip"])
                (world env)
  = (Raise e, w1) →
  init path_join dir isfile download_file unzip_file BISTModel_new
       BISTModel_load spacy_load verbose spacy_model bist_model env
  = (Raise e,
     mkEnv w1 (stdout env ++ ["Using pre-trained BIST model.";
                              "Downloading pre-trained BIST model..."])).
Proof.
  intros Hb Habsent Hd.
  unfold init, download_pretrained_model, pretrained in *. rewrite Hb.
  unfold bindE, liftE, calling, print, retE, ret. cbn.
  rewrite Habsent. cbn. rewrite Hd. cbn. by rewrite <- !app_assoc.
Qed.

(** X16: with a model path of its own the constructor neither prints nor
    downloads: what it does is the same whatever the download and the
    extraction would do, and the standard output is left as it was. *)
Theorem init_explicit_model_no_download (verbose : bool)
    (spacy_model : model_ref) (p : string) (env : Env World)
    (download_file' : string → string → string → World → outcome unit * World)
    (unzip_file' : string → string → World → outcome unit * World) :
  p ≠ "" →
  init path_join dir isfile download_file unzip_file BISTModel_new
       BISTModel_load spacy_load verbose spacy_model (Some p) env
  = init path_join dir isfile download_file' unzip_file' BISTModel_new
         BISTModel_load spacy_load verbose spacy_model (Some p) env
  ∧ stdout (snd (init path_join dir isfile download_file unzip_file BISTModel_new
                      BISTModel_load spacy_load verbose spacy_model (Some p) env))
    = stdout env.
Proof.
  intros Hp. apply eqb_false in Hp.
  unfold init, truthy. rewrite Hp. cbn [negb default].
  split; [reflexivity | ].
  unfold bindE, retE, ret, calling. cbn.
  destruct (isfile p (world env) && _); [ | done].
  destruct (BISTModel_new (world env)) as [[bp | x] w1]; [ | done]. cbn.
  destruct (BISTModel_load bp _ w1) as [[[] | x] w2]; [ | done]. cbn.
  by destruct (spacy_load spacy_model w2) as [[sa | x] w3].
Qed.

(** X17: when the model file named does not exist, or the annotator model is a
    path that does not, the constructor returns silently with no attribute
    set and nothing changed; on such an instance [parse] raises
    [AttributeError] for arguments of the expected types and returns [None]
    for the others, and [to_conll] raises [AttributeError] for a string and
    yields nothing otherwise; neither changes anything. *)
Theorem init_missing_model (verbose : bool) (spacy_model : model_ref)
    (p : string) (env : Env World) :
  p ≠ "" →
  isfile p (world env)
  && match spacy_model with
     | ModelName _ => true
     | ModelPath q => isfile q (world env)
     end = false →
  init path_join dir isfile download_file unzip_file BISTModel_new
       BISTModel_load spacy_load verbose spacy_model (Some p) env
  = (Return None, env)
  ∧ (∀ (text_arg show_tok show_doc : pyval) (env' : Env World),
        parse_self BISTModel_predict_conll Language_call None
                   text_arg show_tok show_doc env'
        = (if isinstance_str text_arg && type_is_bool show_tok
              && type_is_bool show_doc
           then Raise (AttributeError "bist_parser")
           else Return None,
           env'))
  ∧ (∀ (text_arg : pyval) (env' : Env World),
        to_conll_self (BISTModel:=BISTModel) Language_call None text_arg env'
        = (if isinstance_str text_arg
           then Raise (AttributeError "spacy_annotator")
           else Return [],
           env')).
Proof.
  intros Hp Hmissing. apply eqb_false in Hp.
  split; [ | split].
  - unfold init, truthy. rewrite Hp. cbn [negb default].
    unfold bindE, retE, ret. cbn. by rewrite Hmissing.
  - intros text_arg show_tok show_doc env'.
    by destruct text_arg, show_tok, show_doc.
  - intros text_arg env'. by destruct text_arg.
Qed.

End ConstructionFacts.

(** ** The samples again *)

Lemma conj_suffix_iff_witness :
  nonroot (Sample.pe 3 "Ann" 1 "conj")
  ∧ pred_relation (Sample.pe 3 "Ann" 1 "conj") = "conj"
  ∧ ∃ r : ParsedTok,
      parse_sentence true Sample.tom_and_ann !! 2%nat = Some r
      ∧ r !! "rel" = Some (PyStr "conj_and").
Proof.
  assert (nonroot (Sample.pe 3 "Ann" 1 "conj")) as Hn by (intros H; discriminate H).
  split; [exact Hn | split; [reflexivity | ]].
  destruct (conj_suffix_iff true
              [Sample.pe_root; Sample.pe 1 "Tom" 0 "root"; Sample.pe 2 "and" 1 "cc"]
              [] (Sample.pe 3 "Ann" 1 "conj") Hn eq_refl)
    as (r & Hr & Hand & Hor).
  exists r. split; [exact Hr | ].
  assert (r !! "rel" = Some (PyStr "conj_and")
          ∨ r !! "rel" = Some (PyStr "conj_and_or")) as [H | H].
  { apply Hand. apply Exists_cons_tl, Exists_cons_tl, Exists_cons_hd.
    repeat split. intros H; discriminate H. }
  - exact H.
  - exfalso.
    assert (Exists (λ t, conj_word "or" t ∧ pred_parent_id t = 1)
              ([Sample.pe_root; Sample.pe 1 "Tom" 0 "root"; Sample.pe 2 "and" 1 "cc"]
               ++ [Sample.pe 3 "Ann" 1 "conj"])) as Hex
      by (apply Hor; by right).
    apply Exists_exists in Hex as (t & Ht & (_ & Hl) & _).
    cbn in Ht. repeat (apply elem_of_cons in Ht as [-> | Ht]; [discriminate Hl | ]).
    by apply elem_of_nil in Ht.
Defined.

Lemma parse_token_fields_witness :
  (∀ ss w, fmap (M:=list) entry <$> fst (Sample.predict ss w) = ss)
  ∧ ∃ parsed_doc : CoreNLPDoc,
      fst (parse false Sample.annotator Sample.predict
                 (PyStr Sample.doc) (PyBool false) (PyBool true) Sample.env0)
      = Some parsed_doc
      ∧ fmap (M:=list) (λ r : ParsedTok, delete "gov" (delete "rel" r))
          <$> sentences parsed_doc
        = [ token_record false
              <$> [ mkToken "Tom" "NNP" "tom" "PERSON" 0 false;
                    mkToken "and" "CC" "and" "" 4 false;
                    mkToken "Jerry" "NNP" "jerry" "PERSON" 8 false;
                    mkToken "ran" "VBD" "run" "" 14 false;
                    mkToken "." "." "." "" 17 false ] ].
Proof.
  split; [exact sample_predict_augments | ].
  destruct (parse_token_fields false Sample.annotator Sample.predict
              Sample.doc false true Sample.env0 sample_predict_augments)
    as (parsed_doc & Hdoc & Hrec).
  exists parsed_doc. split; [exact Hdoc | ].
  rewrite Hrec. vm_compute. reflexivity.
Defined.

Lemma download_pretrained_model_once_witness :
  SampleFS.isfile (pretrained SampleFS.path_join SampleFS.dir) [] = false
  ∧ download_pretrained_model SampleFS.path_join SampleFS.dir SampleFS.isfile
      SampleFS.download_file SampleFS.unzip_file SampleFS.env0
    = (Return tt,
       mkEnv [ "/opt/spacy_bist/bist-pretrained/bist.model";
               "/opt/spacy_bist/bist-pretrained.zip" ]
             [ "Downloading pre-trained BIST model..."; "Unzipping..."; "Done." ])
  ∧ download_pretrained_model SampleFS.path_join SampleFS.dir SampleFS.isfile
      SampleFS.download_file SampleFS.unzip_file
      (mkEnv [ "/opt/spacy_bist/bist-pretrained/bist.model";
               "/opt/spacy_bist/bist-pretrained.zip" ]
             [ "Downloading pre-trained BIST model..."; "Unzipping..."; "Done." ])
    = (Return tt,
       mkEnv [ "/opt/spacy_bist/bist-pretrained/bist.model";
               "/opt/spacy_bist/bist-pretrained.zip" ]
             [ "Downloading pre-trained BIST model..."; "Unzipping..."; "Done." ]).
Proof.
  split; [reflexivity | ].
  exact (download_pretrained_model_once SampleFS.path_join SampleFS.dir
           SampleFS.isfile SampleFS.download_file SampleFS.unzip_file
           SampleFS.env0 _ _ eq_refl eq_refl eq_refl eq_refl).
Defined.

Lemma init_download_failure_witness :
  truthy None = false
  ∧ SampleFS.isfile (pretrained SampleFS.path_join SampleFS.dir) [] = false
  ∧ init SampleFS.path_join SampleFS.dir SampleFS.isfile SampleFS.download_fails
         SampleFS.unzip_file SampleFS.BISTModel_new SampleFS.BISTModel_load
         SampleFS.spacy_load false (ModelName "en") None SampleFS.env0
    = (Raise (Failure "connection refused"),
       mkEnv [] [ "Using pre-trained BIST model.";
                  "Downloading pre-trained BIST model..." ]).
Proof.
  split; [reflexivity | split; [reflexivity | ]].
  exact (init_download_failure SampleFS.path_join SampleFS.dir SampleFS.isfile
           SampleFS.download_fails SampleFS.unzip_file SampleFS.BISTModel_new
           SampleFS.BISTModel_load SampleFS.spacy_load false (ModelName "en")
           None SampleFS.env0 _ _ eq_refl eq_refl eq_refl).
Defined.

Lemma init_explicit_model_no_download_witness :
  "/models/bist.model" ≠ ""
  ∧ init SampleFS.path_join SampleFS.dir SampleFS.isfile SampleFS.download_file
         SampleFS.unzip_file SampleFS.BISTModel_new SampleFS.BISTModel_load
         SampleFS.spacy_load true (ModelName "en") (Some "/models/bist.model")
         (mkEnv ["/models/bist.model"] [])
    = init SampleFS.path_join SampleFS.dir SampleFS.isfile SampleFS.download_fails
           SampleFS.unzip_file SampleFS.BISTModel_new SampleFS.BISTModel_load
           SampleFS.spacy_load true (ModelName "en") (Some "/models/bist.model")
           (mkEnv ["/models/bist.model"] [])
  ∧ init SampleFS.path_join SampleFS.dir SampleFS.isfile SampleFS.download_file
         SampleFS.unzip_file SampleFS.BISTModel_new SampleFS.BISTModel_load
         SampleFS.spacy_load true (ModelName "en") (Some "/models/bist.model")
         (mkEnv ["/models/bist.model"] [])
    = (Return (Some (mkInstance true tt tt)), mkEnv ["/models/bist.model"] []).
Proof.
  assert ("/models/bist.model" ≠ "") as Hp by discriminate.
  split; [exact Hp | split; [ | reflexivity]].
  exact (proj1 (init_explicit_model_no_download SampleFS.path_join SampleFS.dir
                  SampleFS.isfile SampleFS.download_file SampleFS.unzip_file
                  SampleFS.BISTModel_new SampleFS.BISTModel_load
                  SampleFS.spacy_load true (ModelName "en") "/models/bist.model"
                  (mkEnv ["/models/bist.model"] [])
                  SampleFS.download_fails SampleFS.unzip_file Hp)).
Defined.

Lemma init_missing_model_witness :
  "/models/bist.model" ≠ ""
  ∧ init SampleFS.path_join SampleFS.dir SampleFS.isfile SampleFS.download_file
         SampleFS.unzip_file SampleFS.BISTModel_new SampleFS.BISTModel_load
         SampleFS.spacy_load false (ModelName "en") (Some "/models/bist.model")
         SampleFS.env0
    = (Return None, SampleFS.env0)
  ∧ parse_self SampleFS.predict_conll SampleFS.annotate None
               (PyStr "Tom ran.") (PyBool true) (PyBool true) SampleFS.env0
    = (Raise (AttributeError "bist_parser"), SampleFS.env0)
  ∧ parse_self SampleFS.predict_conll SampleFS.annotate None
               (PyStr "Tom ran.") (PyInt 1) (PyBool true) SampleFS.env0
    = (Return None, SampleFS.env0).
Proof.
  assert ("/models/bist.model" ≠ "") as Hp by discriminate.
  destruct (init_missing_model SampleFS.path_join SampleFS.dir SampleFS.isfile
              SampleFS.download_file SampleFS.unzip_file SampleFS.BISTModel_new
              SampleFS.BISTModel_load SampleFS.spacy_load SampleFS.predict_conll
              SampleFS.annotate false (ModelName "en") "/models/bist.model"
              SampleFS.env0 Hp eq_refl) as (Hinit & Hparse & _).
  split; [exact Hp | split; [exact Hinit | split]].
  - exact (Hparse (PyStr "Tom ran.") (PyBool true) (PyBool true) SampleFS.env0).
  - exact (Hparse (PyStr "Tom ran.") (PyInt 1) (PyBool true) SampleFS.env0).
Defined.

(** X9: the fields "start", "pos", "ner" and "lemma" of a record are copied from
    the entry the model returned: its [misc], [pos], [feats] and [lemma], in
    the order of the non-root entries. *)
Theorem parse_sentence_copies_entry (show_tok : bool) (sent : list PredEntry) :
  (λ r : ParsedTok, (r !! "start", r !! "pos", r !! "ner", r !! "lemma"))
    <$> parse_sentence show_tok sent
  = (λ tok, (Some (misc (entry tok)), Some (PyStr (pos (entry tok))),
             Some (PyStr (feats (entry tok))), Some (PyStr (lemma (entry tok)))))
      <$> filter nonroot sent.
Proof.
  apply parse_sentence_map. intros cg tok.
  by rewrite !emitted_lookup_ne.
Qed.
